(** * Neural-Network-Visualizer client: session, polling, gallery

    A shallow embedding of the Angular client's services and page
    components (auth.service.ts, style-transfer.service.ts,
    gallery.service.ts, gallery-page.component.ts,
    style-transfer-page.component.ts, auth-modal.component.ts,
    admin-page.component.ts), followed by the properties established
    about them.

    Conventions.
    - JavaScript numbers are IEEE-754 binary64 values: Rocq's primitive
      [float].
    - Values of type [any] (server JSON, thrown values) are [JsValue].
    - [localStorage] is a finite map from keys to strings.
    - An Observable returned by [HttpClient] is cold: the request is sent
      when the caller subscribes.  Every handler below is split into the
      synchronous part, which returns the new component state and the
      requests that were sent, and one function per callback
      ([next] / [error]) that is run when the answer arrives. *)

From Stdlib Require Import ZArith List String Ascii Floats Lia Bool.
From Stdlib Require Import DecimalString Permutation.
From stdpp Require Import gmap strings.
Import ListNotations.

Local Open Scope Z_scope.
#[local] Set Warnings "-register-all".

(** ** JavaScript values *)

Module Js.

Inductive JsValue : Type :=
| JUndefined
| JNull
| JBool (b : bool)
| JNum (x : float)
| JStr (s : string)
| JDate (t : float)                       (* a Date, by its time value *)
| JArr (items : list JsValue)
| JObj (fields : list (string * JsValue)).

(** Builtins of the host whose full definition is outside this
    development (string-to-number grammar, JSON grammar, Date parsing,
    number-to-string).  The code is embedded over any host. *)
Class Host : Type := {
  StringToNumber : string -> float;        (* Number(s) for a string s *)
  ToString : JsValue -> string;            (* String(v) *)
  JSON_parse : string -> option JsValue;   (* None: SyntaxError thrown *)
  JSON_stringify : JsValue -> string;
  Date_new : JsValue -> float;             (* time value of new Date(v) *)
  Date_now : float                         (* time value of new Date() *)
}.

(** ToBoolean: the falsy values are undefined, null, false, +0, -0, NaN
    and the empty string. *)
Definition truthy (v : JsValue) : bool :=
  match v with
  | JUndefined | JNull => false
  | JBool b => b
  | JNum x => negb (PrimFloat.is_zero x || PrimFloat.is_nan x)
  | JStr s => negb (String.eqb s "")
  | JDate _ | JArr _ | JObj _ => true
  end.

(** [a || b] *)
Definition or_else (a b : JsValue) : JsValue := if truthy a then a else b.

Fixpoint assoc (k : string) (fs : list (string * JsValue)) : JsValue :=
  match fs with
  | [] => JUndefined
  | (k', v) :: fs' => if String.eqb k k' then v else assoc k fs'
  end.

(** [o.k] for a data property [k] of a non-nullish value.  No name read
    by the embedded code ([id], [timestamp], [parameters], [isMaster],
    ...) exists on a primitive wrapper, a Date or an Array prototype, so
    only plain objects answer. *)
Definition prop (o : JsValue) (k : string) : JsValue :=
  match o with
  | JObj fs => assoc k fs
  | _ => JUndefined
  end.

(** [o?.k] *)
Definition opt_prop (o : JsValue) (k : string) : JsValue :=
  match o with
  | JUndefined | JNull => JUndefined
  | _ => prop o k
  end.

(** [Number(v)] *)
Definition Number `{Host} (v : JsValue) : float :=
  match v with
  | JUndefined => nan
  | JNull => 0%float
  | JBool true => 1%float
  | JBool false => 0%float
  | JNum x => x
  | JStr s => StringToNumber s
  | JDate t => t
  | JArr _ | JObj _ => StringToNumber (ToString v)
  end.

(** [isNaN(x)] on a number and [Number.isFinite]. *)
Definition isNaN (x : float) : bool := PrimFloat.is_nan x.
Definition isFinite (x : float) : bool := PrimFloat.is_finite x.

(** *** Number.prototype.toFixed *)

Definition decimal (n : Z) : string :=
  NilZero.string_of_uint (N.to_uint (Z.to_N n)).

(** The integer [n] for which [n / 10^f - m * 2^e] is closest to zero,
    the larger one when two are equally close. *)
Definition scaled_round (m : positive) (e : Z) (f : nat) : Z :=
  let p := 10 ^ Z.of_nat f in
  if 0 <=? e then Z.pos m * 2 ^ e * p
  else (2 * Z.pos m * p + 2 ^ (- e)) / 2 ^ (- e + 1).

Fixpoint zeros (k : nat) : string :=
  match k with
  | O => EmptyString
  | S k' => String "0" (zeros k')
  end.

(** Steps 9-10 of toFixed: pad the digits to at least [f + 1]
    characters and put the point before the last [f]. *)
Definition place_point (digits : string) (f : nat) : string :=
  match f with
  | O => digits
  | _ =>
      let k := String.length digits in
      let m := if (k <=? f)%nat then zeros (f + 1 - k) +:+ digits else digits in
      let k := String.length m in
      substring 0 (k - f) m +:+ "." +:+ substring (k - f) f m
  end.

(** [x.toFixed(f)] for a finite [x]. *)
Definition toFixed `{Host} (x : float) (f : nat) : string :=
  if PrimFloat.leb 1e21 (PrimFloat.abs x) then ToString (JNum x)
  else
    match Prim2SF x with
    | S754_finite s m e =>
        (if s then "-" else "") +:+ place_point (decimal (scaled_round m e f)) f
    | _ => place_point "0" f
    end.

End Js.

Import Js.

(** ** GalleryPageComponent.formatValue *)

Definition formatValue `{Host} (value : JsValue) : string :=
  match value with
  | JNull | JUndefined => "--"
  | JNum x =>
      if negb (isFinite x) then
        if isNaN x then "N/A"
        else if PrimFloat.ltb 0 x then "∞" else "-∞"
      else if PrimFloat.leb 1000000 x then toFixed (x / 1000000)%float 1 +:+ "M"
      else if PrimFloat.leb 1000 x then toFixed (x / 1000)%float 1 +:+ "K"
      else toFixed x 2
  | v => ToString v
  end.

(** ** String methods *)

Module JsString.

(** [hay.startsWith(needle)] *)
Definition startsWith (needle hay : string) : bool := String.prefix needle hay.

(** Greatest position at which [needle] occurs in [hay], if any. *)
Fixpoint last_occurrence (needle hay : string) : option nat :=
  match hay with
  | EmptyString => if String.prefix needle hay then Some O else None
  | String _ hay' =>
      match last_occurrence needle hay' with
      | Some i => Some (S i)
      | None => if String.prefix needle hay then Some O else None
      end
  end.

(** [hay.lastIndexOf(needle)]: -1 when there is no occurrence. *)
Definition lastIndexOf (needle hay : string) : Z :=
  match last_occurrence needle hay with
  | Some i => Z.of_nat i
  | None => -1
  end.

(** [s.substring(start, finish)]: both ends are clamped to
    [0 .. s.length] and swapped when out of order. *)
Definition substring_js (s : string) (start finish : Z) : string :=
  let len := Z.of_nat (String.length s) in
  let a := Z.min (Z.max start 0) len in
  let b := Z.min (Z.max finish 0) len in
  String.substring (Z.to_nat (Z.min a b)) (Z.to_nat (Z.max a b - Z.min a b)) s.

End JsString.


(** ** Transport: requests, responses, errors *)

(** [environment.apiUrl] (environments/environment.ts). *)
Class Environment : Type := { apiUrl : string }.

Inductive Method : Type := GET | POST | DELETE.

Inductive FormValue : Type :=
| FormFile (name : string)
| FormText (text : string).

Inductive Body : Type :=
| NoBody
| JsonBody (v : JsValue)
| FormData (entries : list (string * FormValue)).

(** A call handed to [HttpClient]; [headers] are the ones the caller
    passes explicitly. *)
Record HttpRequest : Type := mkRequest {
  method : Method;
  url : string;
  body : Body;
  headers : list (string * string)
}.

(** The fields of [HttpErrorResponse] the code reads: [error.status],
    [error.message], [error.error?.detail] and, when [error.error] is an
    [ErrorEvent], its message. *)
Record HttpErrorResponse : Type := mkHttpError {
  status : Z;
  message : string;
  detail : JsValue;
  error_event : option string
}.

(** An [Error] object, by its message; [new Error(v)] converts [v] to a
    string. *)
Definition Error : Type := string.

Definition new_Error `{Host} (v : JsValue) : Error :=
  match v with
  | JStr s => s
  | _ => ToString v
  end.

(** Evaluation that may throw. *)
Inductive Result (A : Type) : Type :=
| Ok (a : A)
| Throw (e : JsValue).
Arguments Ok {A} a.
Arguments Throw {A} e.

Definition bind {A B} (r : Result A) (k : A -> Result B) : Result B :=
  match r with
  | Ok a => k a
  | Throw e => Throw e
  end.

(** [try { body } catch { handler }] *)
Definition try_catch {A} (body : Result A) (handler : JsValue -> Result A)
  : Result A :=
  match body with
  | Ok a => Ok a
  | Throw e => handler e
  end.

Notation "'let*' x ':=' r 'in' k" := (bind r (fun x => k))
  (at level 10, x name, r at level 100, k at level 200).

(** [JSON.parse(s)] *)
Definition JSON_parse_call `{Host} (s : string) : Result JsValue :=
  match JSON_parse s with
  | Some v => Ok v
  | None => Throw (JStr "SyntaxError")
  end.

(** ** auth.service.ts *)

Module AuthService.

Record LoginCredentials : Type := mkCredentials {
  email : option string;
  password : string;
  masterPassword : option string
}.

Record LoginResponse : Type := mkLoginResponse {
  access_token : string;
  token_type : string;
  is_master : bool;
  response_email : option string
}.

Definition tokenKey : string := "auth_token".
Definition userKey : string := "auth_user".

(** The service: [localStorage] and the value held by
    [currentUserSubject]. *)
Record State : Type := mkState {
  localStorage : gmap string string;
  currentUser : JsValue
}.

(** An optional string used as a condition: [if (credentials.email)]. *)
Definition given (o : option string) : bool :=
  match o with
  | Some s => negb (String.eqb s "")
  | None => false
  end.

Definition getToken (st : State) : option string :=
  localStorage st !! tokenKey.

Definition isAuthenticated (st : State) : bool := given (getToken st).

Definition getStoredUser `{Host} (st : State) : Result JsValue :=
  let userStr := localStorage st !! userKey in
  match userStr with
  | Some s =>
      if negb (String.eqb s "") then
        try_catch (JSON_parse_call s) (fun _ => Ok JNull)
      else Ok JNull
  | None => Ok JNull
  end.

Definition isAdmin `{Host} (st : State) : Result JsValue :=
  let* user := getStoredUser st in
  Ok (or_else (opt_prop user "isMaster") (JBool false)).

Definition getCurrentUser (st : State) : JsValue := currentUser st.

(** The constructor: the subject starts at [getStoredUser()]. *)
Definition create `{Host} (storage : gmap string string) : Result State :=
  let* user := getStoredUser (mkState storage JNull) in
  Ok (mkState storage user).

Definition logout (st : State) : State :=
  mkState (delete userKey (delete tokenKey (localStorage st))) JNull.

Definition getAuthHeaders (st : State) : list (string * string) :=
  match getToken st with
  | Some token =>
      if negb (String.eqb token "") then [("Authorization", "Bearer " +:+ token)]
      else []
  | None => []
  end.

(** [login]: the request that is posted when the caller subscribes. *)
Definition login_body (credentials : LoginCredentials)
  : list (string * JsValue) :=
  let body := [("password", JStr (password credentials))] in
  if given (masterPassword credentials) then
    body ++ [("master_password", JStr (default "" (masterPassword credentials)))]
  else if given (email credentials) then
    body ++ [("email", JStr (default "" (email credentials)))]
  else body.

Definition login `{Environment} (credentials : LoginCredentials) : HttpRequest :=
  mkRequest POST (apiUrl +:+ "/auth/login")
            (JsonBody (JObj (login_body credentials))) [].

(** [tap]: runs on the response. *)
Definition login_tap `{Host} (st : State) (response : LoginResponse) : State :=
  let user :=
    JObj [("email", if given (response_email response)
                    then JStr (default "" (response_email response))
                    else JNull);
          ("isMaster", JBool (is_master response))] in
  mkState (<[userKey := JSON_stringify user]>
             (<[tokenKey := access_token response]> (localStorage st)))
          user.

(** [catchError] of [login]. *)
Definition login_catchError `{Host} (error : HttpErrorResponse) : Error :=
  new_Error (or_else (detail error) (JStr "Login failed")).

Record PermissionRequest : Type := mkPermissionRequest {
  request_name : string;
  request_email : string;
  request_reason : string
}.

Definition submitPermissionRequest `{Environment} (request : PermissionRequest)
  : HttpRequest :=
  mkRequest POST (apiUrl +:+ "/auth/requests")
            (JsonBody (JObj [("name", JStr (request_name request));
                             ("email", JStr (request_email request));
                             ("reason", JStr (request_reason request))]))
            [].

End AuthService.

(** ** auth-modal.component.ts *)

Module AuthModal.
Import AuthService.

Inductive Output : Type := closeModal | loginSuccess.

Record State : Type := mkState {
  loginCredentials : LoginCredentials;
  isLoading : bool;
  loginError : string
}.

Definition onLogin `{Environment} (st : State) : State * list HttpRequest :=
  let st := mkState (loginCredentials st) true "" in
  let credentials := mkCredentials None (password (loginCredentials st)) None in
  if given (masterPassword (loginCredentials st)) then
    let credentials :=
      mkCredentials (email credentials) (password credentials)
                    (masterPassword (loginCredentials st)) in
    (st, [login credentials])
  else if given (email (loginCredentials st)) then
    let credentials :=
      mkCredentials (email (loginCredentials st)) (password credentials)
                    (masterPassword credentials) in
    (st, [login credentials])
  else
    (mkState (loginCredentials st) false
             "Please provide either email/password or master password", []).

Definition onLogin_next (st : State) : State * list Output :=
  (mkState (loginCredentials st) false (loginError st),
   [loginSuccess; closeModal]).


(** The fields of the component used by the request tab. *)
Record RequestState : Type := mkRequestState {
  permissionRequest : PermissionRequest;
  request_isLoading : bool;
  requestError : string;
  requestSuccess : bool
}.

Definition onSubmitRequest `{Environment} (st : RequestState)
  : RequestState * list HttpRequest :=
  let st := mkRequestState (permissionRequest st) (request_isLoading st) "" false in
  let request := permissionRequest st in
  if String.eqb (request_name request) ""
     || String.eqb (request_email request) ""
     || String.eqb (request_reason request) ""
  then
    (mkRequestState request (request_isLoading st) "Please fill in all fields"
                    (requestSuccess st), [])
  else
    (mkRequestState request true (requestError st) (requestSuccess st),
     [submitPermissionRequest request]).

Definition onSubmitRequest_next (st : RequestState) : RequestState :=
  mkRequestState (permissionRequest st) false (requestError st) true.

(** The callback of [setTimeout(..., 3000)] armed by [next]. *)
Definition onSubmitRequest_timeout (st : RequestState) : RequestState :=
  mkRequestState (mkPermissionRequest "" "" "") (request_isLoading st)
                 (requestError st) false.


End AuthModal.

(** ** Observable notifications *)

Inductive Notification (A : Type) : Type :=
| Next (a : A)
| Complete
| Err (e : Error).
Arguments Next {A} a.
Arguments Complete {A}.
Arguments Err {A} e.

Definition AuthRequired : Error := "Authentication required. Please sign in.".

(** ** style-transfer.service.ts *)

Module StyleTransferService.

(** Modelled from the spec: the request parameters
    (models/style-transfer.model.ts), by the fields [transferStyle]
    reads. *)
Record StyleTransferParams : Type := mkParams {
  styleWeight : float;
  contentWeight : float;
  numSteps : float;
  layerWeights : JsValue
}.

(** Modelled from the spec: Job, by the fields [getJobStatus] fills in;
    [status] is the string the server reports. *)
Record StyleTransferJob : Type := mkJob {
  jobId : string;
  job_status : string;
  progress : option float;
  styleLoss : option float;
  contentLoss : option float;
  resultUrl : option string;
  error : option string
}.

(** Body of [GET /transfer/{id}] and of [POST /transfer]. *)
Record StatusResponse : Type := mkStatusResponse {
  job_id : string;
  response_status : string;
  response_progress : option float;
  style_loss : option float;
  content_loss : option float;
  result_url : option string;
  response_error : option string
}.

Definition transferStyle `{Host} `{Environment}
    (contentImage styleImage : string) (params : StyleTransferParams)
  : HttpRequest :=
  let formData :=
    [("content_image", FormFile contentImage);
     ("style_image", FormFile styleImage);
     ("style_weight", FormText (ToString (JNum (styleWeight params))));
     ("content_weight", FormText (ToString (JNum (contentWeight params))));
     ("num_steps", FormText (ToString (JNum (numSteps params))));
     ("layer_weights",
      FormText (JSON_stringify (or_else (layerWeights params) (JObj []))))] in
  mkRequest POST (apiUrl +:+ "/transfer") (FormData formData) [].

Definition transferStyle_map (response : StatusResponse) : StyleTransferJob :=
  mkJob (job_id response) (response_status response) None None None None None.

Definition transferStyle_catchError `{Host} (error : HttpErrorResponse) : Error :=
  if (status error =? 401)%Z then AuthRequired
  else "Failed to start style transfer: "
         +:+ new_Error (or_else (detail error) (JStr (message error))).

Definition getJobStatus `{Environment} (jobId : string) : HttpRequest :=
  mkRequest GET (apiUrl +:+ "/transfer/" +:+ jobId) NoBody [].

Definition getJobStatus_map (response : StatusResponse) : StyleTransferJob :=
  mkJob (job_id response) (response_status response)
        (response_progress response) (style_loss response)
        (content_loss response) (result_url response)
        (response_error response).

Definition getJobStatus_catchError (error : HttpErrorResponse) : Error :=
  "Failed to get job status: " +:+ message error.

(** *** pollJobStatus

    [interval(pollInterval).pipe(switchMap(() => getJobStatus(jobId)),
    takeWhile(pred, true))] as a machine driven by what happens to the
    subscription: the timer fires, the answer to a status request
    arrives, or the subscriber unsubscribes.

    RxJS semantics followed: [interval] emits every [pollInterval] ms,
    first after one period.  [switchMap], on each outer value,
    unsubscribes from the inner Observable it holds and subscribes to
    the new one; unsubscribing from an HttpClient call aborts the
    request, and its answer is never delivered.  An inner error ends the
    whole pipeline.  [takeWhile(pred, true)] passes values while [pred]
    holds; the first value failing [pred] is passed too, then it
    completes and unsubscribes upstream, which clears the timer. *)

(** The predicate given to [takeWhile]. *)
Definition still_running (job : StyleTransferJob) : bool :=
  String.eqb (job_status job) "pending"
  || String.eqb (job_status job) "processing".

Record Polling : Type := mkPolling {
  poll_jobId : string;
  pollInterval : Z;
  active : bool;                       (* the timer is armed *)
  sent : list HttpRequest;             (* status requests, in order *)
  inner : option nat;                  (* index in [sent] of the request
                                          switchMap is subscribed to *)
  aborted : list nat;                  (* requests unsubscribed unanswered *)
  emitted : list (Notification StyleTransferJob)
}.

Inductive Event : Type :=
| Tick
| Response (request : nat) (response : StatusResponse)
| Failure (request : nat) (error : HttpErrorResponse)
| Unsubscribe.

(** State right after [pollJobStatus(jobId, pollInterval).subscribe]. *)
Definition pollJobStatus (jobId : string) (pollInterval : option Z) : Polling :=
  mkPolling jobId (default 5000 pollInterval) true [] None [] [].

Definition pending_request (p : Polling) : list nat :=
  match inner p with
  | Some r => [r]
  | None => []
  end.

Definition is_inner (p : Polling) (r : nat) : bool :=
  match inner p with
  | Some r' => Nat.eqb r r'
  | None => false
  end.

Definition step `{Environment} (p : Polling) (ev : Event) : Polling :=
  if negb (active p) then p
  else
    match ev with
    | Tick =>
        mkPolling (poll_jobId p) (pollInterval p) true
                  (sent p ++ [getJobStatus (poll_jobId p)])
                  (Some (length (sent p)))
                  (aborted p ++ pending_request p)
                  (emitted p)
    | Response r response =>
        if is_inner p r then
          let job := getJobStatus_map response in
          if still_running job then
            mkPolling (poll_jobId p) (pollInterval p) true (sent p) None
                      (aborted p) (emitted p ++ [Next job])
          else
            mkPolling (poll_jobId p) (pollInterval p) false (sent p) None
                      (aborted p) (emitted p ++ [Next job; Complete])
        else p
    | Failure r error =>
        if is_inner p r then
          mkPolling (poll_jobId p) (pollInterval p) false (sent p) None
                    (aborted p)
                    (emitted p ++ [Err (getJobStatus_catchError error)])
        else p
    | Unsubscribe =>
        mkPolling (poll_jobId p) (pollInterval p) false (sent p) None
                  (aborted p ++ pending_request p) (emitted p)
    end.

Definition run `{Environment} (p : Polling) (evs : list Event) : Polling :=
  fold_left step evs p.

(** Requests that were sent and neither answered nor aborted. *)
Definition in_flight (p : Polling) : list nat := pending_request p.

(** [apiUrl.substring(0, apiUrl.lastIndexOf('/api'))] *)
Definition serverRoot `{Environment} : string :=
  JsString.substring_js apiUrl 0 (JsString.lastIndexOf "/api" apiUrl).

Definition getResultUrl `{Environment} (relativeUrl : string) : string :=
  if JsString.startsWith "http" relativeUrl then relativeUrl
  else serverRoot +:+ relativeUrl.

Definition checkHealth `{Environment} : HttpRequest :=
  mkRequest GET (apiUrl +:+ "/health") NoBody [].

End StyleTransferService.

(** ** gallery.service.ts *)

Module GalleryService.

Definition newline : string := String "010"%char EmptyString.

(** [`${error.status}`] for an integral status. *)
Definition show_status (z : Z) : string :=
  if (z <? 0)%Z then "-" +:+ decimal (- z) else decimal z.

Definition handleError (error : HttpErrorResponse) : Error :=
  match error_event error with
  | Some msg => "Error: " +:+ msg
  | None =>
      "Error Code: " +:+ show_status (status error) +:+ newline
        +:+ "Message: " +:+ message error
  end.

Definition ensureNumber `{Host} (value : JsValue) : float :=
  match value with
  | JNull | JUndefined => 0%float
  | _ => if isNaN (Number value) then 0%float else Number value
  end.

Definition mapGalleryItem `{Host} (item : JsValue) : JsValue :=
  if negb (truthy item) then JObj []
  else
    let parameters := prop item "parameters" in
    JObj
      [("id", or_else (prop item "id") (JStr ""));
       ("timestamp",
        JDate (if truthy (prop item "timestamp")
               then Date_new (prop item "timestamp") else Date_now));
       ("contentImageUrl", or_else (prop item "contentImageUrl") (JStr ""));
       ("styleImageUrl", or_else (prop item "styleImageUrl") (JStr ""));
       ("resultImageUrl", or_else (prop item "resultImageUrl") (JStr ""));
       ("bestLoss", JNum (ensureNumber (prop item "bestLoss")));
       ("styleLoss", JNum (ensureNumber (prop item "styleLoss")));
       ("contentLoss", JNum (ensureNumber (prop item "contentLoss")));
       ("processingTime", JNum (ensureNumber (prop item "processingTime")));
       ("parameters",
        JObj
          [("styleWeight",
            JNum (ensureNumber (opt_prop parameters "styleWeight")));
           ("contentWeight",
            JNum (ensureNumber (opt_prop parameters "contentWeight")));
           ("numSteps",
            or_else (opt_prop parameters "numSteps") (JNum 300));
           ("layerWeights",
            or_else (opt_prop parameters "layerWeights") (JObj []))])].

Definition galleryUrl `{Environment} : string := apiUrl +:+ "/gallery".

Definition getGalleryItems `{Environment} : HttpRequest :=
  mkRequest GET galleryUrl NoBody [].

Definition getGalleryItems_map `{Host} (items : JsValue) : list JsValue :=
  match items with
  | JArr l => map mapGalleryItem l
  | _ => []
  end.

Definition deleteGalleryItem `{Environment} (id : string) : HttpRequest :=
  mkRequest DELETE (galleryUrl +:+ "/" +:+ id) NoBody [].

Definition deleteGalleryItem_catchError (error : HttpErrorResponse) : Error :=
  if (status error =? 401)%Z then AuthRequired else handleError error.

(** [baseUrl] of the service. *)
Definition baseUrl `{Environment} : string :=
  JsString.substring_js apiUrl 0 (JsString.lastIndexOf "/api" apiUrl).

Definition getFullUrl `{Environment} (relativeUrl : string) : string :=
  if String.eqb relativeUrl "" then ""
  else if JsString.startsWith "http" relativeUrl then relativeUrl
  else baseUrl +:+ relativeUrl.

Definition getGalleryItem `{Environment} (id : string) : HttpRequest :=
  mkRequest GET (galleryUrl +:+ "/" +:+ id) NoBody [].

End GalleryService.

(** ** models/gallery.model.ts: the typed view the components work on *)

Module GalleryModel.

(** Modelled from the spec: the [parameters] of a GalleryItem
    (models/gallery.model.ts is not part of the sources read here); the
    fields are the ones [mapGalleryItem] fills in. *)
Record GalleryParameters : Type := mkGalleryParameters {
styleWeight : float;
contentWeight : float;
numSteps : float;
layerWeights : list (string * float)
}.

(** Modelled from the spec: GalleryItem, with [bestLoss] as
    [mapGalleryItem] produces it. *)
Record GalleryItem : Type := mkGalleryItem {
id : string;
timestamp : float;                 (* time value of the Date *)
contentImageUrl : string;
styleImageUrl : string;
resultImageUrl : string;
bestLoss : float;
styleLoss : float;
contentLoss : float;
processingTime : float;
parameters : GalleryParameters
}.

(** What a [GalleryItem[]] holds at run time: [mapGalleryItem] returns
    [{} as GalleryItem], an object with none of the fields, for a falsy
    element of the server's answer, and an item with every field
    otherwise. *)
Inductive Item : Type :=
| Bare                                    (* {} *)
| Full (item : GalleryItem).

End GalleryModel.

Import GalleryModel.

(** services/weight-preset.service.ts: the classifier of a weight pair. *)
Class WeightPresetService : Type := {
  getPresetLabel : float -> float -> string
}.

(** ** Array.prototype.filter and Array.prototype.sort

    A callback returns [None] when its evaluation throws; the method
    then throws as well.

    The sort is stable; [compareFn a b > 0] puts [a] after [b], and a
    result that is zero or NaN leaves the two in their order.  The sorted
    values are written back to the array when the sort has finished
    (SortIndexedProperties), so a sort that throws leaves the array as it
    was.  For a comparator that is not a consistent ordering the
    standard only promises a rearrangement of the elements. *)

Section ArrayMethods.
Context {A : Type}.

Fixpoint Array_filter (callback : A -> option bool) (l : list A)
  : option (list A) :=
  match l with
  | [] => Some []
  | x :: l' =>
      match callback x with
      | None => None
      | Some keep =>
          match Array_filter callback l' with
          | None => None
          | Some kept => Some (if keep then x :: kept else kept)
          end
      end
  end.

Variable compareFn : A -> A -> option float.

Fixpoint sort_insert (x : A) (l : list A) : option (list A) :=
  match l with
  | [] => Some [x]
  | y :: l' =>
      match compareFn x y with
      | None => None
      | Some v =>
          if PrimFloat.ltb 0 v then
            match sort_insert x l' with
            | Some placed => Some (y :: placed)
            | None => None
            end
          else Some (x :: y :: l')
      end
  end.

Fixpoint Array_sort (l : list A) : option (list A) :=
  match l with
  | [] => Some []
  | x :: l' =>
      match Array_sort l' with
      | Some sorted => sort_insert x sorted
      | None => None
      end
  end.
End ArrayMethods.

(** [hay.includes(needle)] *)
Fixpoint includes (needle hay : string) : bool :=
  String.prefix needle hay
  || match hay with
     | EmptyString => false
     | String _ hay' => includes needle hay'
     end.

(** ** gallery-page.component.ts *)

Module GalleryPage.

Record State : Type := mkState {
  allGalleryItems : list Item;
  filteredItems : list Item;
  sortOption : string;
  activePresetFilter : string;
  showAuthModal : bool;
  alerts : list string                 (* messages shown with alert() *)
}.

(** The component as constructed. *)
Definition opened : State := mkState [] [] "newest" "all" false [].

(** How a handler ends: it returns, or a TypeError leaves it; [st] is
    the component as the handler leaves it. *)
Inductive Outcome : Type :=
| Returns (st : State)
| Throws (st : State).

Definition state_after (o : Outcome) : State :=
  match o with
  | Returns st | Throws st => st
  end.

Definition getBalanceLabel `{WeightPresetService}
    (styleWeight contentWeight : float) : string :=
  getPresetLabel styleWeight contentWeight.

(** [typeof item.styleLoss !== 'number'] holds of [{}]; on a full item
    both losses are numbers. *)
Definition calculateTotalLoss `{Host} (item : Item) : string :=
  match item with
  | Bare => "--"
  | Full item =>
      let totalLoss := (styleLoss item + contentLoss item)%float in
      formatValue (JNum totalLoss)
  end.

(** [new Date(item.timestamp).getTime()]: NaN for [new Date(undefined)]. *)
Definition getTime (item : Item) : float :=
  match item with
  | Bare => nan
  | Full item => timestamp item
  end.

(** [item.styleLoss + item.contentLoss]: [undefined + undefined] is NaN. *)
Definition totalLoss (item : Item) : float :=
  match item with
  | Bare => nan
  | Full item => (styleLoss item + contentLoss item)%float
  end.

(** [item.processingTime] as the operand of a subtraction. *)
Definition processingTime_of (item : Item) : float :=
  match item with
  | Bare => nan
  | Full item => processingTime item
  end.

(** [item.parameters.numSteps]: reading a property of the missing
    [parameters] throws. *)
Definition numSteps_of (item : Item) : option float :=
  match item with
  | Bare => None
  | Full item => Some (numSteps (parameters item))
  end.

Definition byNewest (a b : Item) : option float :=
  Some (getTime b - getTime a)%float.
Definition byOldest (a b : Item) : option float :=
  Some (getTime a - getTime b)%float.
Definition byLossAsc (a b : Item) : option float :=
  Some (totalLoss a - totalLoss b)%float.
Definition byLossDesc (a b : Item) : option float :=
  Some (totalLoss b - totalLoss a)%float.
Definition byProcessingTime (a b : Item) : option float :=
  Some (processingTime_of b - processingTime_of a)%float.
Definition bySteps (a b : Item) : option float :=
  match numSteps_of b with
  | None => None
  | Some stepsB =>
      match numSteps_of a with
      | None => None
      | Some stepsA => Some (stepsB - stepsA)%float
      end
  end.

(** The comparator chosen by the [switch]. *)
Definition comparator (sortOption : string) : Item -> Item -> option float :=
  if String.eqb sortOption "newest" then byNewest
  else if String.eqb sortOption "oldest" then byOldest
  else if String.eqb sortOption "lossAsc" then byLossAsc
  else if String.eqb sortOption "lossDesc" then byLossDesc
  else if String.eqb sortOption "processingTime" then byProcessingTime
  else if String.eqb sortOption "steps" then bySteps
  else byNewest.

(** The callback of [filter]: [item.parameters.styleWeight] throws on
    [{}]. *)
Definition passes `{WeightPresetService} (key : string) (item : Item)
  : option bool :=
  match item with
  | Bare => None
  | Full item =>
      Some (String.eqb (getBalanceLabel (styleWeight (parameters item))
                                        (contentWeight (parameters item)))
                       key)
  end.

(** The collection is copied ([...] or [filter]) before it is sorted
    in place, so [allGalleryItems] is not reordered.  When [filter]
    throws nothing has been assigned; when [sort] throws the unsorted
    copy has. *)
Definition applySortingAndFilters `{WeightPresetService} (st : State)
  : Outcome :=
  let filtered :=
    if String.eqb (activePresetFilter st) "all" then Some (allGalleryItems st)
    else Array_filter (passes (activePresetFilter st)) (allGalleryItems st) in
  match filtered with
  | None => Throws st
  | Some filtered =>
      match Array_sort (comparator (sortOption st)) filtered with
      | Some sorted =>
          Returns (mkState (allGalleryItems st) sorted (sortOption st)
                           (activePresetFilter st) (showAuthModal st)
                           (alerts st))
      | None =>
          Throws (mkState (allGalleryItems st) filtered (sortOption st)
                          (activePresetFilter st) (showAuthModal st)
                          (alerts st))
      end
  end.

Definition filterByPreset `{WeightPresetService} (st : State) (preset : string)
  : Outcome :=
  applySortingAndFilters
    (mkState (allGalleryItems st) (filteredItems st) (sortOption st) preset
             (showAuthModal st) (alerts st)).

(** [deleteItem(id)]; [confirmed] is the answer to the [confirm]
    dialog, which is only shown to a signed-in user. *)
Definition deleteItem `{Environment} (auth : AuthService.State)
    (confirmed : bool) (st : State) (id : string)
  : State * list HttpRequest :=
  if negb (AuthService.isAuthenticated auth) then
    (mkState (allGalleryItems st) (filteredItems st) (sortOption st)
             (activePresetFilter st) true (alerts st), [])
  else if confirmed then (st, [GalleryService.deleteGalleryItem id])
  else (st, []).

(** [item.id !== id]: the [id] of [{}] is undefined, which is not a
    string. *)
Definition id_differs (id : string) (item : Item) : bool :=
  match item with
  | Bare => true
  | Full item => negb (String.eqb (GalleryModel.id item) id)
  end.

Definition deleteItem_next `{WeightPresetService} (st : State) (id : string)
  : Outcome :=
  applySortingAndFilters
    (mkState (List.filter (id_differs id) (allGalleryItems st))
             (filteredItems st) (sortOption st) (activePresetFilter st)
             (showAuthModal st) (alerts st)).

Definition deleteItem_error (st : State) (error : Error) : State :=
  if includes "Authentication required" error then
    mkState (allGalleryItems st) (filteredItems st) (sortOption st)
            (activePresetFilter st) true (alerts st)
  else
    mkState (allGalleryItems st) (filteredItems st) (sortOption st)
            (activePresetFilter st) (showAuthModal st)
            (alerts st ++
               ["Failed to delete item: "
                  +:+ (if negb (String.eqb error "") then error
                       else "Unknown error")]).

Definition loadGalleryItems `{Environment} (st : State)
  : State * list HttpRequest :=
  (st, [GalleryService.getGalleryItems]).

Definition loadGalleryItems_next `{WeightPresetService} (st : State)
    (items : list Item) : Outcome :=
  applySortingAndFilters
    (mkState items (filteredItems st) (sortOption st) (activePresetFilter st)
             (showAuthModal st) (alerts st)).

(** [error]: the failure is written to the console. *)
Definition loadGalleryItems_error (st : State) (error : Error) : State := st.

Definition applySorting `{WeightPresetService} (st : State) : Outcome :=
  applySortingAndFilters st.

(** The sort selector: [[(ngModel)]="sortOption"] stores the chosen
    option, then [(change)] calls [applySorting]. *)
Definition sortBy `{WeightPresetService} (st : State) (option : string)
  : Outcome :=
  applySorting
    (mkState (allGalleryItems st) (filteredItems st) option
             (activePresetFilter st) (showAuthModal st) (alerts st)).

Definition clearFilters `{WeightPresetService} (st : State) : Outcome :=
  applySortingAndFilters
    (mkState (allGalleryItems st) (filteredItems st) "newest" "all"
             (showAuthModal st) (alerts st)).

(** [(closeModal)="showAuthModal = false"] *)
Definition closeAuthModal (st : State) : State :=
  mkState (allGalleryItems st) (filteredItems st) (sortOption st)
          (activePresetFilter st) false (alerts st).

Definition onLoginSuccess (st : State) : State := st.

End GalleryPage.


(** ** style-transfer-page.component.ts *)

Module StyleTransferPage.
Import StyleTransferService.

(** Modelled from the spec: an upload slot
    (models/style-transfer.model.ts); [file] is the chosen [File], by
    name. *)
Record ImageFile : Type := mkImageFile {
  file : option string
}.

Record State : Type := mkState {
  contentImage : option ImageFile;
  styleImage : option ImageFile;
  currentJob : option StyleTransferJob;
  isProcessing : bool;
  showAuthModal : bool
}.

(** [image?.file] *)
Definition file_of (image : option ImageFile) : option string :=
  match image with
  | Some i => file i
  | None => None
  end.

Definition canApplyStyle (st : State) : bool :=
  bool_decide (is_Some (file_of (contentImage st)))
  && bool_decide (is_Some (file_of (styleImage st)))
  && negb (isProcessing st).

Definition onApplyStyle `{Host} `{Environment} (auth : AuthService.State)
    (st : State) (params : StyleTransferParams)
  : State * list HttpRequest :=
  match file_of (contentImage st), file_of (styleImage st) with
  | Some content, Some style =>
      if negb (AuthService.isAuthenticated auth) then
        (mkState (contentImage st) (styleImage st) (currentJob st)
                 (isProcessing st) true, [])
      else
        (mkState (contentImage st) (styleImage st) (currentJob st) true
                 (showAuthModal st),
         [transferStyle content style params])
  | _, _ => (st, [])
  end.

(** [next] of the submission: the job is tracked and polling starts. *)
Definition transferStyle_next (st : State) (job : StyleTransferJob)
  : State * Polling :=
  (mkState (contentImage st) (styleImage st) (Some job) (isProcessing st)
           (showAuthModal st),
   pollJobStatus (jobId job) None).

Definition transferStyle_error (st : State) (error : Error) : State :=
  mkState (contentImage st) (styleImage st)
          (Some (mkJob "error" "failed" None None None None
                       (Some "Failed to start style transfer")))
          false (showAuthModal st).

Definition poll_next (st : State) (updatedJob : StyleTransferJob) : State :=
  mkState (contentImage st) (styleImage st) (Some updatedJob)
          (if String.eqb (job_status updatedJob) "completed"
              || String.eqb (job_status updatedJob) "failed"
           then false else isProcessing st)
          (showAuthModal st).

(** [error] of the polling subscription; [currentJob] was set by
    [transferStyle_next] before polling started. *)
Definition poll_error (st : State) (error : Error) : State :=
  let failed job :=
    mkJob (jobId job) "failed" (progress job) (styleLoss job)
          (contentLoss job) (resultUrl job)
          (Some "Failed to get job status updates") in
  mkState (contentImage st) (styleImage st)
          (fmap failed (currentJob st)) false (showAuthModal st).

Definition onContentImageSelected (st : State) (image : ImageFile) : State :=
  mkState (Some image) (styleImage st) (currentJob st) (isProcessing st)
          (showAuthModal st).

Definition onStyleImageSelected (st : State) (image : ImageFile) : State :=
  mkState (contentImage st) (Some image) (currentJob st) (isProcessing st)
          (showAuthModal st).

Definition onLoginSuccess (st : State) : State := st.

(** The subscriber given to [pollJobStatus(...).subscribe]: it has a
    [next] and an [error] callback and none for completion. *)
Definition deliver (st : State) (n : Notification StyleTransferJob) : State :=
  match n with
  | Next updatedJob => poll_next st updatedJob
  | Err e => poll_error st e
  | Complete => st
  end.

(** [ngOnDestroy]: every polling subscription added to
    [this.subscription] is unsubscribed. *)
Definition ngOnDestroy `{Environment} (subscription : list Polling)
  : list Polling :=
  map (fun statusSub => step statusSub Unsubscribe) subscription.

End StyleTransferPage.

(** ** admin-page.component.ts *)

Module AdminPage.

Record State : Type := mkState {
  requests : JsValue;
  isLoadingRequests : bool
}.

Definition loadRequests `{Environment} (auth : AuthService.State) (st : State)
  : State * list HttpRequest :=
  (mkState (requests st) true,
   [mkRequest GET (apiUrl +:+ "/auth/requests") NoBody
              (AuthService.getAuthHeaders auth)]).

Definition loadRequests_next (st : State) (response : JsValue) : State :=
  mkState (prop response "requests") false.

(** [error]: the response is written to the console and the loading
    flag is cleared. *)
Definition loadRequests_error (st : State) (error : HttpErrorResponse) : State :=
  mkState (requests st) false.

End AdminPage.

(** ** app.config.ts *)

Module AppConfig.

(** [name.toLowerCase()] on a header name; header names are ASCII. *)
Definition lower (c : ascii) : ascii :=
  let n := nat_of_ascii c in
  if ((65 <=? n) && (n <=? 90))%nat then ascii_of_nat (n + 32) else c.

Fixpoint toLowerCase (s : string) : string :=
  match s with
  | EmptyString => EmptyString
  | String c s' => String (lower c) (toLowerCase s')
  end.

(** [HttpHeaders] keys its entries by the lower-cased name. *)
Definition same_name (a b : string) : bool :=
  String.eqb (toLowerCase a) (toLowerCase b).

(** [headers.set(name, value)], which [clone({setHeaders})] applies for
    each name given: the entry of that name, whatever its case, gets the
    new value and keeps its place and the spelling it was first given; a
    name not yet present is added last. *)
Fixpoint setHeader (name value : string) (hs : list (string * string))
  : list (string * string) :=
  match hs with
  | [] => [(name, value)]
  | h :: hs' =>
      if same_name (fst h) name then
        (fst h, value)
          :: List.filter (fun h' => negb (same_name (fst h') name)) hs'
      else h :: setHeader name value hs'
  end.

(** [authInterceptor]: the request that is passed on to [next]. *)
Definition authInterceptor (storage : gmap string string) (req : HttpRequest)
  : HttpRequest :=
  match storage !! "auth_token" with
  | Some token =>
      if negb (String.eqb token "") then
        mkRequest (method req) (url req) (body req)
                  (setHeader "Authorization" ("Bearer " +:+ token) (headers req))
      else req
  | None => req
  end.

End AppConfig.

(** ** admin-page.component.ts, the whole component

    [AdminPage] above keeps only the two fields [loadRequests] touches;
    this module has every field and every handler. *)

(** [encodeURIComponent] *)
Class UriCodec : Type := { encodeURIComponent : string -> string }.

Module AdminWorkflow.

Record State : Type := mkState {
  requests : JsValue;
  users : JsValue;
  isLoadingRequests : bool;
  isLoadingUsers : bool;
  isProcessing : bool;
  showRejectReasonModal : bool;
  currentRejectRequestId : option string;
  rejectReason : string;
  newUserEmail : string;
  newUserPassword : string;
  alerts : list string
}.

(** The component as constructed. *)
Definition initial : State :=
  mkState (JArr []) (JArr []) false false false false None "" "" "" [].

Definition set_isProcessing (b : bool) (st : State) : State :=
  mkState (requests st) (users st) (isLoadingRequests st) (isLoadingUsers st)
          b (showRejectReasonModal st) (currentRejectRequestId st)
          (rejectReason st) (newUserEmail st) (newUserPassword st) (alerts st).

Definition getStatusClass (status : string) : string :=
  if String.eqb status "pending" then "bg-yellow-100 text-yellow-800"
  else if String.eqb status "approved" then "bg-green-100 text-green-800"
  else if String.eqb status "rejected" then "bg-red-100 text-red-800"
  else "bg-gray-100 text-gray-800".

Definition loadRequests `{Environment} (auth : AuthService.State) (st : State)
  : State * list HttpRequest :=
  (mkState (requests st) (users st) true (isLoadingUsers st) (isProcessing st)
           (showRejectReasonModal st) (currentRejectRequestId st)
           (rejectReason st) (newUserEmail st) (newUserPassword st) (alerts st),
   [mkRequest GET (apiUrl +:+ "/auth/requests") NoBody
              (AuthService.getAuthHeaders auth)]).

Definition loadRequests_next (st : State) (response : JsValue) : State :=
  mkState (prop response "requests") (users st) false (isLoadingUsers st)
          (isProcessing st) (showRejectReasonModal st)
          (currentRejectRequestId st) (rejectReason st) (newUserEmail st)
          (newUserPassword st) (alerts st).

Definition loadRequests_error (st : State) (error : HttpErrorResponse) : State :=
  mkState (requests st) (users st) false (isLoadingUsers st) (isProcessing st)
          (showRejectReasonModal st) (currentRejectRequestId st)
          (rejectReason st) (newUserEmail st) (newUserPassword st) (alerts st).

Definition loadUsers `{Environment} (auth : AuthService.State) (st : State)
  : State * list HttpRequest :=
  (mkState (requests st) (users st) (isLoadingRequests st) true (isProcessing st)
           (showRejectReasonModal st) (currentRejectRequestId st)
           (rejectReason st) (newUserEmail st) (newUserPassword st) (alerts st),
   [mkRequest GET (apiUrl +:+ "/auth/users") NoBody
              (AuthService.getAuthHeaders auth)]).

Definition loadUsers_next (st : State) (response : JsValue) : State :=
  mkState (requests st) (prop response "users") (isLoadingRequests st) false
          (isProcessing st) (showRejectReasonModal st)
          (currentRejectRequestId st) (rejectReason st) (newUserEmail st)
          (newUserPassword st) (alerts st).

Definition loadUsers_error (st : State) (error : HttpErrorResponse) : State :=
  mkState (requests st) (users st) (isLoadingRequests st) false (isProcessing st)
          (showRejectReasonModal st) (currentRejectRequestId st)
          (rejectReason st) (newUserEmail st) (newUserPassword st) (alerts st).

Definition ngOnInit `{Host} `{Environment} (auth : AuthService.State) (st : State)
  : Result (State * list HttpRequest) :=
  let* admin := AuthService.isAdmin auth in
  if negb (truthy admin) then Ok (st, [])
  else
    let after_requests := loadRequests auth st in
    let after_users := loadUsers auth (fst after_requests) in
    Ok (fst after_users, snd after_requests ++ snd after_users).

Definition approveRequest `{Environment} (auth : AuthService.State) (st : State)
    (requestId : string) : State * list HttpRequest :=
  (set_isProcessing true st,
   [mkRequest POST (apiUrl +:+ "/auth/requests/" +:+ requestId +:+ "/approve")
              (JsonBody (JObj [])) (AuthService.getAuthHeaders auth)]).

Definition approveRequest_next `{Environment} (auth : AuthService.State)
    (st : State) : State * list HttpRequest :=
  let after_requests := loadRequests auth st in
  let after_users := loadUsers auth (fst after_requests) in
  (set_isProcessing false (fst after_users),
   snd after_requests ++ snd after_users).

Definition approveRequest_error (st : State) (error : HttpErrorResponse) : State :=
  set_isProcessing false st.

(** [showRejectModal(request)], by [request.id]. *)
Definition showRejectModal (st : State) (request_id : string) : State :=
  mkState (requests st) (users st) (isLoadingRequests st) (isLoadingUsers st)
          (isProcessing st) true (Some request_id) "" (newUserEmail st)
          (newUserPassword st) (alerts st).

Definition cancelReject (st : State) : State :=
  mkState (requests st) (users st) (isLoadingRequests st) (isLoadingUsers st)
          (isProcessing st) false None "" (newUserEmail st)
          (newUserPassword st) (alerts st).

Definition confirmReject `{Environment} (auth : AuthService.State) (st : State)
  : State * list HttpRequest :=
  if negb (AuthService.given (currentRejectRequestId st)) then (st, [])
  else
    (set_isProcessing true st,
     [mkRequest POST
        (apiUrl +:+ "/auth/requests/"
           +:+ default "" (currentRejectRequestId st) +:+ "/reject")
        (JsonBody (JObj [("reason",
                          if negb (String.eqb (rejectReason st) "")
                          then JStr (rejectReason st) else JUndefined)]))
        (AuthService.getAuthHeaders auth)]).

Definition confirmReject_next `{Environment} (auth : AuthService.State)
    (st : State) : State * list HttpRequest :=
  let after_requests := loadRequests auth st in
  (set_isProcessing false (cancelReject (fst after_requests)),
   snd after_requests).

Definition confirmReject_error (st : State) (error : HttpErrorResponse) : State :=
  set_isProcessing false st.

(** [confirmed] is the answer to the [confirm] dialog. *)
Definition deleteRequest `{Environment} (auth : AuthService.State)
    (confirmed : bool) (st : State) (requestId : string)
  : State * list HttpRequest :=
  if negb confirmed then (st, [])
  else
    (set_isProcessing true st,
     [mkRequest DELETE (apiUrl +:+ "/auth/requests/" +:+ requestId) NoBody
                (AuthService.getAuthHeaders auth)]).

Definition deleteRequest_next `{Environment} (auth : AuthService.State)
    (st : State) : State * list HttpRequest :=
  let after_requests := loadRequests auth st in
  (set_isProcessing false (fst after_requests), snd after_requests).

Definition deleteRequest_error (st : State) (error : HttpErrorResponse) : State :=
  set_isProcessing false st.

Definition createUser `{Environment} (auth : AuthService.State) (st : State)
  : State * list HttpRequest :=
  if String.eqb (newUserEmail st) "" || String.eqb (newUserPassword st) ""
  then (st, [])
  else
    (set_isProcessing true st,
     [mkRequest POST (apiUrl +:+ "/auth/users")
                (JsonBody (JObj [("email", JStr (newUserEmail st));
                                 ("password", JStr (newUserPassword st))]))
                (AuthService.getAuthHeaders auth)]).

Definition createUser_next `{Environment} (auth : AuthService.State)
    (st : State) : State * list HttpRequest :=
  let after_users := loadUsers auth st in
  let st := fst after_users in
  (mkState (requests st) (users st) (isLoadingRequests st) (isLoadingUsers st)
           false (showRejectReasonModal st) (currentRejectRequestId st)
           (rejectReason st) "" "" (alerts st),
   snd after_users).

Definition createUser_error `{Host} (st : State) (error : HttpErrorResponse)
  : State :=
  mkState (requests st) (users st) (isLoadingRequests st) (isLoadingUsers st)
          false (showRejectReasonModal st) (currentRejectRequestId st)
          (rejectReason st) (newUserEmail st) (newUserPassword st)
          (alerts st ++
             [new_Error (or_else (detail error) (JStr "Failed to create user"))]).

Definition deleteUser `{Environment} `{UriCodec} (auth : AuthService.State)
    (confirmed : bool) (st : State) (email : string)
  : State * list HttpRequest :=
  if negb confirmed then (st, [])
  else
    (set_isProcessing true st,
     [mkRequest DELETE (apiUrl +:+ "/auth/users/" +:+ encodeURIComponent email)
                NoBody (AuthService.getAuthHeaders auth)]).

Definition deleteUser_next `{Environment} (auth : AuthService.State)
    (st : State) : State * list HttpRequest :=
  let after_users := loadUsers auth st in
  (set_isProcessing false (fst after_users), snd after_users).

Definition deleteUser_error (st : State) (error : HttpErrorResponse) : State :=
  set_isProcessing false st.

End AdminWorkflow.

(** ** What a subscriber receives when a call fails

    Each service method pipes its request through its own [catchError];
    the admin page and [checkHealth] subscribe to [HttpClient]
    directly. *)

Inductive Call : Type :=
| call_login
| call_submitPermissionRequest
| call_transferStyle
| call_getJobStatus
| call_checkHealth
| call_getGalleryItems
| call_getGalleryItem
| call_deleteGalleryItem
| call_admin_loadRequests
| call_admin_loadUsers
| call_admin_approveRequest
| call_admin_confirmReject
| call_admin_deleteRequest
| call_admin_createUser
| call_admin_deleteUser.

Inductive Failure : Type :=
| Thrown (e : Error)                      (* replaced by a service's catchError *)
| Untouched (e : HttpErrorResponse).      (* the transport's own error object *)

Definition submitPermissionRequest_catchError `{Host} (error : HttpErrorResponse)
  : Error :=
  new_Error (or_else (detail error) (JStr "Failed to submit request")).

Definition failure_of `{Host} (c : Call) (error : HttpErrorResponse) : Failure :=
  match c with
  | call_login => Thrown (AuthService.login_catchError error)
  | call_submitPermissionRequest => Thrown (submitPermissionRequest_catchError error)
  | call_transferStyle => Thrown (StyleTransferService.transferStyle_catchError error)
  | call_getJobStatus => Thrown (StyleTransferService.getJobStatus_catchError error)
  | call_getGalleryItems | call_getGalleryItem =>
      Thrown (GalleryService.handleError error)
  | call_deleteGalleryItem => Thrown (GalleryService.deleteGalleryItem_catchError error)
  | call_checkHealth
  | call_admin_loadRequests | call_admin_loadUsers | call_admin_approveRequest
  | call_admin_confirmReject | call_admin_deleteRequest | call_admin_createUser
  | call_admin_deleteUser => Untouched error
  end.

(** ** Concrete collaborators for closed examples *)

(** A host that answers the builtins on the inputs the examples use:
    no example converts a string or an object to a number, prints a value
    or builds a Date, and the only JSON text parsed is ["null"]. *)
Definition exampleHost : Host := {|
  StringToNumber := fun _ => nan;
  ToString := fun _ => "";
  JSON_parse := fun s => if String.eqb s "null" then Some JNull else None;
  JSON_stringify := fun _ => "";
  Date_new := fun _ => nan;
  Date_now := 0%float
|}.

Definition exampleEnvironment : Environment :=
  {| apiUrl := "http://localhost:8000/api" |}.

(** A classifier by the ratio of the two weights. *)
Definition examplePresets : WeightPresetService := {|
  getPresetLabel := fun styleWeight contentWeight =>
    if PrimFloat.ltb contentWeight styleWeight then "Style Focused"
    else if PrimFloat.ltb styleWeight contentWeight then "Content Focused"
    else "Balanced"
|}.

(** * Properties *)

(** ** formatValue *)

(** C9: [formatValue] gives "1.5M" for 1500000, "2.5K" for 2500, "0.50"
    for 0.5, "--" for undefined, "N/A" for NaN and the infinity sign for
    positive infinity, on any host. *)
Theorem formatValue_documented_values `{Host} :
  formatValue (JNum 1500000) = "1.5M"
  /\ formatValue (JNum 2500) = "2.5K"
  /\ formatValue (JNum 0.5) = "0.50"
  /\ formatValue JUndefined = "--"
  /\ formatValue (JNum nan) = "N/A"
  /\ formatValue (JNum infinity) = "∞".
Proof.
  repeat split; vm_compute; reflexivity.
Qed.

(** The integer chosen by [toFixed] is the closest one, the larger of two
    equally close: with [x = m * 2^e] and [p = 10^f],
    [n <= x * p + 1/2 < n + 1]. *)
Lemma scaled_round_closest (m : positive) (e : Z) (f : nat) :
  let n := scaled_round m e f in
  let p := 10 ^ Z.of_nat f in
  (0 <= e -> n = Z.pos m * 2 ^ e * p)
  /\ (e < 0 ->
      2 * n * 2 ^ (- e) <= 2 * Z.pos m * p + 2 ^ (- e)
      < 2 * (n + 1) * 2 ^ (- e)).
Proof.
  cbv zeta. unfold scaled_round. split.
  - intros He. apply Z.leb_le in He. now rewrite He.
  - intros He. assert (E : (0 <=? e) = false) by (apply Z.leb_gt; lia).
    rewrite E.
    replace (- e + 1) with (Z.succ (- e)) by lia.
    rewrite Z.pow_succ_r by lia.
    set (k := 2 ^ (- e)). set (a := 2 * Z.pos m * 10 ^ Z.of_nat f + k).
    assert (Hk : 0 < k) by (apply Z.pow_pos_nonneg; lia).
    pose proof (Z.div_mod a (2 * k) ltac:(lia)) as Hdiv.
    pose proof (Z.mod_pos_bound a (2 * k) ltac:(lia)) as Hmod.
    nia.
Qed.

Example calculateTotalLoss_example `{Host} :
  GalleryPage.calculateTotalLoss
    (Full (mkGalleryItem "a" 0 "" "" "" 0 1.5 2.25 0
                         (mkGalleryParameters 1 1 300 [])))
  = "3.75".
Proof. vm_compute. reflexivity. Qed.

(** ** The polling loop *)

Section Polling.
Import StyleTransferService.
Context `{Environment}.

(** A timeline in which the timer fires once per entry; [Some r] means
    the answer [r] to that tick's request arrives before the next tick,
    [None] that it does not.  [n] is the number of requests sent
    before. *)
Fixpoint timeline (n : nat) (answers : list (option StatusResponse))
  : list Event :=
  match answers with
  | [] => []
  | Some r :: rest => Tick :: Response n r :: timeline (S n) rest
  | None :: rest => Tick :: timeline (S n) rest
  end.

(** The jobs the subscriber of a timeline is shown. *)
Definition observed (answers : list (option StatusResponse))
  : list StyleTransferJob :=
  map getJobStatus_map (omap (fun a => a) answers).

Definition non_terminal (r : StatusResponse) : Prop :=
  response_status r = "pending" \/ response_status r = "processing".

Definition terminal (r : StatusResponse) : Prop :=
  response_status r = "completed" \/ response_status r = "failed".

Definition unfinished (a : option StatusResponse) : Prop :=
  match a with
  | Some r => non_terminal r
  | None => True
  end.

Lemma non_terminal_running r :
  non_terminal r -> still_running (getJobStatus_map r) = true.
Proof.
  intros [E | E]; unfold still_running; simpl; rewrite E; reflexivity.
Qed.

Lemma terminal_stops r :
  terminal r -> still_running (getJobStatus_map r) = false.
Proof.
  intros [E | E]; unfold still_running; simpl; rewrite E; reflexivity.
Qed.

Lemma run_app p evs evs' : run (run p evs) evs' = run p (evs ++ evs').
Proof. unfold run. symmetry. apply fold_left_app. Qed.

Lemma step_stopped p ev : active p = false -> step p ev = p.
Proof. intros E. unfold step. rewrite E. reflexivity. Qed.

Lemma run_stopped p evs : active p = false -> run p evs = p.
Proof.
  intros E. induction evs as [| ev evs IH]; [reflexivity |].
  unfold run in *. simpl. rewrite step_stopped by exact E. exact IH.
Qed.

Lemma is_inner_fresh p :
  is_inner (mkPolling (poll_jobId p) (pollInterval p) true
                      (sent p ++ [getJobStatus (poll_jobId p)])
                      (Some (length (sent p)))
                      (aborted p ++ pending_request p) (emitted p))
           (length (sent p)) = true.
Proof. unfold is_inner. simpl. apply Nat.eqb_refl. Qed.

(** While every answer that arrives is non-terminal the loop stays
    armed: one request per tick, one notification per answer. *)
Lemma run_unfinished answers : forall p,
  active p = true ->
  Forall unfinished answers ->
  let p' := run p (timeline (length (sent p)) answers) in
  active p' = true
  /\ poll_jobId p' = poll_jobId p
  /\ length (sent p') = (length (sent p) + length answers)%nat
  /\ emitted p' = emitted p ++ map Next (observed answers).
Proof.
  induction answers as [| a rest IH]; intros p Hact Hall; simpl.
  - repeat split; auto. now rewrite app_nil_r.
  - inversion Hall as [| ? ? Ha Hrest]; subst.
    set (q := step p Tick).
    assert (Hq : q = mkPolling (poll_jobId p) (pollInterval p) true
                   (sent p ++ [getJobStatus (poll_jobId p)])
                   (Some (length (sent p)))
                   (aborted p ++ pending_request p) (emitted p)).
    { unfold q, step. rewrite Hact. reflexivity. }
    assert (Hlen : length (sent q) = S (length (sent p))).
    { rewrite Hq. simpl. rewrite length_app. simpl. lia. }
    destruct a as [r |].
    + unfold run. simpl. fold q.
      set (q' := step q (Response (length (sent p)) r)).
      assert (Hq' : active q' = true /\ poll_jobId q' = poll_jobId p
                    /\ sent q' = sent q
                    /\ emitted q' = emitted p ++ [Next (getJobStatus_map r)]).
      { unfold q', step. rewrite Hq. cbn [active negb].
        rewrite is_inner_fresh, (non_terminal_running r Ha). simpl. auto. }
      destruct Hq' as (A1 & A2 & A3 & A4).
      specialize (IH q' A1 Hrest). rewrite A3, Hlen in IH.
      unfold run in IH. destruct IH as (B1 & B2 & B3 & B4).
      repeat split; auto.
      * congruence.
      * rewrite B3. lia.
      * rewrite B4, A4. unfold observed. simpl. now rewrite <- app_assoc.
    + unfold run. simpl. fold q.
      assert (A1 : active q = true) by (rewrite Hq; reflexivity).
      specialize (IH q A1 Hrest). rewrite Hlen in IH.
      unfold run in IH. destruct IH as (B1 & B2 & B3 & B4).
      repeat split; auto.
      * rewrite B2, Hq. reflexivity.
      * rewrite B3. lia.
      * rewrite B4, Hq. reflexivity.
Qed.

Lemma timeline_app answers answers' : forall n,
  timeline n (answers ++ answers')
  = timeline n answers ++ timeline (n + length answers) answers'.
Proof.
  induction answers as [| [r |] rest IH]; intros n; simpl.
  - now rewrite Nat.add_0_r.
  - now rewrite IH, Nat.add_succ_comm.
  - now rewrite IH, Nat.add_succ_comm.
Qed.

(** C1: on any timeline whose answers are 'pending' or 'processing' (or
    late) up to a first 'completed' or 'failed' one, the loop hands every
    answered status to the subscriber in order, then the terminal one,
    then completes; it has sent one request per tick up to that point and
    sends none afterwards, whatever happens later. *)
Theorem poll_stops_after_first_terminal
    (jobId : string) (interval : option Z)
    (answers : list (option StatusResponse)) (final : StatusResponse)
    (later : list Event) :
  Forall unfinished answers ->
  terminal final ->
  let p := run (pollJobStatus jobId interval)
               (timeline 0 (answers ++ [Some final]) ++ later) in
  emitted p
  = map Next (observed answers) ++ [Next (getJobStatus_map final); Complete]
  /\ length (sent p) = S (length answers)
  /\ active p = false
  /\ in_flight p = [].
Proof.
  intros Hall Hfinal.
  set (p0 := pollJobStatus jobId interval).
  pose proof (run_unfinished answers p0 eq_refl Hall) as HR.
  change (length (sent p0)) with 0%nat in HR. cbv zeta in HR.
  rewrite <- run_app, timeline_app, <- run_app.
  set (p1 := run p0 (timeline 0 answers)) in *.
  destruct HR as (A1 & A2 & A3 & A4). simpl in A3, A4.
  change (timeline (0 + length answers) [Some final])
    with [Tick; Response (length answers) final].
  assert (E : run p1 [Tick; Response (length answers) final]
              = mkPolling (poll_jobId p1) (pollInterval p1) false
                  (sent p1 ++ [getJobStatus (poll_jobId p1)]) None
                  (aborted p1 ++ pending_request p1)
                  (emitted p1 ++ [Next (getJobStatus_map final); Complete])).
  { change (run p1 [Tick; Response (length answers) final])
      with (step (step p1 Tick) (Response (length answers) final)).
    unfold step at 2. rewrite A1. cbn [negb].
    unfold step. cbn [active negb]. rewrite <- A3, is_inner_fresh.
    rewrite (terminal_stops final Hfinal). reflexivity. }
  rewrite E, run_stopped by reflexivity. cbn [emitted sent active in_flight pending_request inner].
  repeat split; auto.
  - now rewrite A4.
  - rewrite length_app, A3. simpl. lia.
Qed.

End Polling.

Definition pending_answer : StyleTransferService.StatusResponse :=
  StyleTransferService.mkStatusResponse "job-1" "pending" None None None None None.
Definition processing_answer : StyleTransferService.StatusResponse :=
  StyleTransferService.mkStatusResponse
    "job-1" "processing" (Some 40%float) None None None None.
Definition completed_answer : StyleTransferService.StatusResponse :=
  StyleTransferService.mkStatusResponse
    "job-1" "completed" (Some 100%float) (Some 1.5%float) (Some 2.25%float)
    (Some "/results/job-1.png") None.
Definition failed_answer : StyleTransferService.StatusResponse :=
  StyleTransferService.mkStatusResponse
    "job-1" "failed" None None None None (Some "out of memory").

(** The sequence pending, processing, completed, with two more timer
    events afterwards: three notifications in that order, completion,
    three requests. *)
Lemma poll_pending_processing_completed :
  let p := @StyleTransferService.run exampleEnvironment
             (StyleTransferService.pollJobStatus "job-1" None)
             (timeline 0 ([Some pending_answer; Some processing_answer]
                          ++ [Some completed_answer])
              ++ [StyleTransferService.Tick; StyleTransferService.Tick]) in
  StyleTransferService.emitted p
  = map Next (observed [Some pending_answer; Some processing_answer])
    ++ [Next (StyleTransferService.getJobStatus_map completed_answer); Complete]
  /\ length (StyleTransferService.sent p) = 3%nat
  /\ StyleTransferService.active p = false
  /\ StyleTransferService.in_flight p = [].
Proof.
  apply (@poll_stops_after_first_terminal exampleEnvironment "job-1" None
           [Some pending_answer; Some processing_answer] completed_answer).
  - constructor; [left; reflexivity |].
    constructor; [right; reflexivity | constructor].
  - left. reflexivity.
Defined.

(** The same with a slow first request and a final 'failed'. *)
Example poll_slow_then_failed :
  let p := @StyleTransferService.run exampleEnvironment
             (StyleTransferService.pollJobStatus "job-1" None)
             (timeline 0 [None; Some processing_answer; Some failed_answer]
              ++ [StyleTransferService.Tick]) in
  StyleTransferService.emitted p
  = [Next (StyleTransferService.getJobStatus_map processing_answer);
     Next (StyleTransferService.getJobStatus_map failed_answer);
     Complete]
  /\ length (StyleTransferService.sent p) = 3%nat
  /\ StyleTransferService.aborted p = [0%nat].
Proof. vm_compute. repeat split. Qed.

(** ** One status request at a time *)

Section Switching.
Import StyleTransferService.
Context `{Environment}.

(** What a subscriber can have received: running jobs only while the
    loop is armed (or after the caller unsubscribed); otherwise running
    jobs followed by exactly one job that is not running and the
    completion, or by one error. *)
Inductive emission : bool -> list (Notification StyleTransferJob) -> Prop :=
| emission_running armed jobs :
    Forall (fun job => still_running job = true) jobs ->
    emission armed (map Next jobs)
| emission_completed jobs final :
    Forall (fun job => still_running job = true) jobs ->
    still_running final = false ->
    emission false (map Next jobs ++ [Next final; Complete])
| emission_failed jobs e :
    Forall (fun job => still_running job = true) jobs ->
    emission false (map Next jobs ++ [Err e]).

Lemma step_emission p ev :
  emission (active p) (emitted p) ->
  emission (active (step p ev)) (emitted (step p ev)).
Proof.
  intros Hp. unfold step. destruct (active p) eqn:Ha; cbn [negb].
  2:{ now rewrite Ha. }
  inversion Hp as [armed jobs Hjobs Harmed Hem | |]; subst.
  destruct ev as [| r response | r error |].
  - cbn [active emitted]. now constructor.
  - destruct (is_inner p r).
    2:{ rewrite Ha. exact Hp. }
    destruct (still_running (getJobStatus_map response)) eqn:Hrun;
      cbn [active emitted].
    + replace (map Next jobs ++ [Next (getJobStatus_map response)])
        with (map Next (jobs ++ [getJobStatus_map response]))
        by (now rewrite map_app).
      constructor. apply Forall_app. split; [exact Hjobs |].
      now constructor.
    + now constructor.
  - destruct (is_inner p r).
    2:{ rewrite Ha. exact Hp. }
    cbn [active emitted]. now constructor.
  - cbn [active emitted]. now constructor.
Qed.

(** On every sequence of events the terminal notification, if any, is
    the last one and is preceded by running jobs only. *)
Lemma run_emission evs : forall p,
  emission (active p) (emitted p) ->
  emission (active (run p evs)) (emitted (run p evs)).
Proof.
  induction evs as [| ev evs IH]; intros p Hp; [exact Hp |].
  apply (IH (step p ev)). now apply step_emission.
Qed.

Lemma pollJobStatus_emission jobId interval evs :
  let p := run (pollJobStatus jobId interval) evs in
  emission (active p) (emitted p).
Proof. apply run_emission. simpl. apply (emission_running true []). constructor. Qed.

(** Requests whose answer, or failure, reached the subscriber. *)
Definition answered (p : Polling) : nat :=
  length (List.filter (fun n => match n with
                                | Next _ | Err _ => true
                                | Complete => false
                                end) (emitted p)).

(** Every request sent so far was answered, aborted, or is the one in
    flight. *)
Definition accounted (p : Polling) : Prop :=
  length (sent p) = (answered p + length (aborted p) + length (in_flight p))%nat.

Lemma answered_snoc p n :
  length (List.filter (fun n => match n with
                                | Next _ | Err _ => true
                                | Complete => false
                                end) (emitted p ++ n))
  = (answered p + length (List.filter (fun n => match n with
                                | Next _ | Err _ => true
                                | Complete => false
                                end) n))%nat.
Proof. unfold answered. now rewrite List.filter_app, length_app. Qed.

Lemma is_inner_true p r : is_inner p r = true -> inner p = Some r.
Proof.
  unfold is_inner. destruct (inner p) as [r' |]; [| discriminate].
  intros E. apply Nat.eqb_eq in E. now subst.
Qed.

Lemma step_accounted p ev : accounted p -> accounted (step p ev).
Proof.
  unfold accounted, in_flight, step. intros Inv.
  destruct (active p); cbn [negb]; [| exact Inv].
  destruct ev as [| r response | r error |].
  - unfold answered in *. cbn [sent aborted emitted pending_request inner].
    rewrite !length_app. simpl. lia.
  - destruct (is_inner p r) eqn:E; [| exact Inv].
    apply is_inner_true in E. unfold pending_request in Inv. rewrite E in Inv.
    destruct (still_running (getJobStatus_map response));
      unfold answered at 1; cbn [sent aborted emitted pending_request inner];
      rewrite answered_snoc; simpl in *; lia.
  - destruct (is_inner p r) eqn:E; [| exact Inv].
    apply is_inner_true in E. unfold pending_request in Inv. rewrite E in Inv.
    unfold answered at 1. cbn [sent aborted emitted pending_request inner].
    rewrite answered_snoc. simpl in *. lia.
  - unfold answered in *. cbn [sent aborted emitted pending_request inner].
    rewrite length_app. simpl. lia.
Qed.

Lemma run_accounted evs : forall p, accounted p -> accounted (run p evs).
Proof.
  induction evs as [| ev evs IH]; intros p Inv; [exact Inv |].
  apply (IH (step p ev)). now apply step_accounted.
Qed.

Lemma step_config p ev :
  poll_jobId (step p ev) = poll_jobId p
  /\ pollInterval (step p ev) = pollInterval p.
Proof.
  unfold step. destruct (active p); cbn [negb]; [| auto].
  destruct ev as [| r response | r error |]; auto;
    destruct (is_inner p r); auto;
    destruct (still_running (getJobStatus_map response)); auto.
Qed.

Lemma run_config evs : forall p,
  poll_jobId (run p evs) = poll_jobId p
  /\ pollInterval (run p evs) = pollInterval p.
Proof.
  induction evs as [| ev evs IH]; intros p; [auto |].
  destruct (IH (step p ev)) as [A B]. destruct (step_config p ev) as [C D].
  unfold run in *. simpl. split; congruence.
Qed.

(** An aborted request is an earlier one than the request switchMap
    holds. *)
Definition settled (p : Polling) : Prop :=
  (forall r, In r (aborted p) -> (r < length (sent p))%nat)
  /\ (forall i, inner p = Some i ->
        (i < length (sent p))%nat /\ ~ In i (aborted p)).

Lemma step_settled p ev : settled p -> settled (step p ev).
Proof.
  intros [Hab Hin]. unfold step.
  destruct (active p); cbn [negb]; [| now split].
  assert (Hpending : forall r, In r (pending_request p) ->
                       (r < length (sent p))%nat).
  { intros r. unfold pending_request.
    destruct (inner p) as [i |] eqn:E; simpl; [| tauto].
    intros [<- | []]. now apply Hin. }
  destruct ev as [| r response | r error |].
  - split; cbn [aborted sent inner].
    + intros r Hr. rewrite length_app. simpl.
      apply in_app_iff in Hr. destruct Hr as [Hr | Hr];
        [apply Hab in Hr | apply Hpending in Hr]; lia.
    + intros i E. inversion E; subst. rewrite length_app. simpl.
      split; [lia |]. intros Hr. apply in_app_iff in Hr.
      destruct Hr as [Hr | Hr];
        [apply Hab in Hr | apply Hpending in Hr]; lia.
  - destruct (is_inner p r); [| now split].
    destruct (still_running (getJobStatus_map response));
      (split; cbn [aborted sent inner]; [exact Hab | discriminate]).
  - destruct (is_inner p r); [| now split].
    split; cbn [aborted sent inner]; [exact Hab | discriminate].
  - split; cbn [aborted sent inner]; [| discriminate].
    intros r Hr. apply in_app_iff in Hr.
    destruct Hr as [Hr | Hr]; [now apply Hab | now apply Hpending].
Qed.

Lemma run_settled evs : forall p, settled p -> settled (run p evs).
Proof.
  induction evs as [| ev evs IH]; intros p Hp; [exact Hp |].
  apply (IH (step p ev)). now apply step_settled.
Qed.

(** The answer to an aborted request, or its failure, changes
    nothing. *)
Lemma aborted_request_is_ignored p r response error :
  settled p -> In r (aborted p) ->
  step p (Response r response) = p /\ step p (Failure r error) = p.
Proof.
  intros [_ Hin] Hr.
  assert (E : is_inner p r = false).
  { unfold is_inner. destruct (inner p) as [i |] eqn:Ei; [| reflexivity].
    apply Nat.eqb_neq. intros ->. now apply (Hin i eq_refl). }
  unfold step. rewrite E. now destruct (active p).
Qed.

(** C2, as the code has it: while the loop is armed every tick sends a
    status request whether or not the previous one was answered; the
    request still outstanding at that tick is aborted and replaced by the
    new one, so that all requests sent but the newest are answered or
    aborted, and the answer to an aborted request, or its failure, is
    never delivered.  The period given to [interval] is the caller's,
    5000 ms when the caller gives none. *)
Theorem tick_replaces_outstanding_request
    (jobId : string) (interval : option Z) (evs : list Event) :
  let p := run (pollJobStatus jobId interval) evs in
  active p = true ->
  let p' := step p Tick in
  sent p' = sent p ++ [getJobStatus jobId]
  /\ in_flight p' = [length (sent p)]
  /\ aborted p' = aborted p ++ in_flight p
  /\ length (sent p') = (answered p' + length (aborted p') + 1)%nat
  /\ accounted p
  /\ (forall r response error, In r (aborted p') ->
        step p' (Response r response) = p'
        /\ step p' (Failure r error) = p')
  /\ pollInterval p' = default 5000 interval.
Proof.
  intros p Hact p'.
  assert (Hp : accounted p).
  { apply run_accounted. unfold accounted, answered. reflexivity. }
  assert (Sp : settled p).
  { apply run_settled. split; simpl; [tauto | discriminate]. }
  destruct (run_config evs (pollJobStatus jobId interval)) as [Hid Hint].
  fold p in Hid, Hint. simpl in Hid, Hint.
  assert (E : p' = mkPolling (poll_jobId p) (pollInterval p) true
                     (sent p ++ [getJobStatus (poll_jobId p)])
                     (Some (length (sent p)))
                     (aborted p ++ pending_request p) (emitted p)).
  { unfold p', step. rewrite Hact. reflexivity. }
  assert (Hp' : accounted p') by apply step_accounted, Hp.
  split; [rewrite E, Hid; reflexivity |].
  split; [rewrite E; reflexivity |].
  split; [rewrite E; reflexivity |].
  split.
  { unfold accounted in Hp'. rewrite Hp'. rewrite E at 3. simpl. lia. }
  split; [exact Hp |].
  split.
  { intros r response error Hr.
    apply aborted_request_is_ignored; [| exact Hr].
    apply step_settled, Sp. }
  rewrite E. cbn [pollInterval]. exact Hint.
Qed.

End Switching.

(** Two ticks with no answer in between: the first request is aborted,
    only the second is in flight, and an answer to the first that
    arrives afterwards is not delivered. *)
Lemma second_tick_aborts_first_request :
  let p := @StyleTransferService.run exampleEnvironment
             (StyleTransferService.pollJobStatus "job-1" None)
             [StyleTransferService.Tick; StyleTransferService.Tick] in
  length (StyleTransferService.sent p) = 2%nat
  /\ StyleTransferService.in_flight p = [1%nat]
  /\ StyleTransferService.aborted p = [0%nat]
  /\ StyleTransferService.emitted
       (@StyleTransferService.step exampleEnvironment p
          (StyleTransferService.Response 0 completed_answer)) = [].
Proof. vm_compute. repeat split. Qed.

Lemma tick_replaces_outstanding_request_on_two_ticks :
  let p := @StyleTransferService.run exampleEnvironment
             (StyleTransferService.pollJobStatus "job-1" None)
             [StyleTransferService.Tick] in
  let p' := @StyleTransferService.step exampleEnvironment p
              StyleTransferService.Tick in
  StyleTransferService.sent p'
  = StyleTransferService.sent p
    ++ [@StyleTransferService.getJobStatus exampleEnvironment "job-1"]
  /\ StyleTransferService.in_flight p' = [length (StyleTransferService.sent p)]
  /\ StyleTransferService.aborted p'
     = StyleTransferService.aborted p ++ StyleTransferService.in_flight p
  /\ length (StyleTransferService.sent p')
     = (answered p' + length (StyleTransferService.aborted p') + 1)%nat
  /\ accounted p
  /\ (forall r response error, In r (StyleTransferService.aborted p') ->
        @StyleTransferService.step exampleEnvironment p'
          (StyleTransferService.Response r response) = p'
        /\ @StyleTransferService.step exampleEnvironment p'
             (StyleTransferService.Failure r error) = p')
  /\ StyleTransferService.pollInterval p' = 5000.
Proof.
  apply (@tick_replaces_outstanding_request exampleEnvironment "job-1" None
           [StyleTransferService.Tick]).
  reflexivity.
Defined.

(** ** Sign-in validation *)

Section SignIn.
Import AuthService AuthModal.
Context `{Environment}.

Definition loginUrl : string := apiUrl +:+ "/auth/login".

(** C3, as the code has it: the check is made by the sign-in dialog, on
    emptiness.  With neither a master password nor an email filled in,
    [onLogin] sends nothing, shows its message and clears the loading
    flag.  With at least one filled in it posts exactly one login request
    carrying the password and a single selector: the master password when
    there is one, else the email. *)
Theorem onLogin_validation (st : AuthModal.State) :
  let creds := loginCredentials st in
  let after := fst (onLogin st) in
  let requests := snd (onLogin st) in
  (given (masterPassword creds) = false /\ given (email creds) = false ->
     requests = []
     /\ isLoading after = false
     /\ loginError after
        = "Please provide either email/password or master password")
  /\ (given (masterPassword creds) = true \/ given (email creds) = true ->
        exists body,
          requests = [mkRequest POST loginUrl (JsonBody (JObj body)) []]
          /\ isLoading after = true
          /\ assoc "password" body = JStr (password creds)
          /\ (given (masterPassword creds) = true ->
                 Some (assoc "master_password" body)
                 = JStr <$> masterPassword creds
                 /\ assoc "email" body = JUndefined)
          /\ (given (masterPassword creds) = false ->
                 Some (assoc "email" body) = JStr <$> email creds
                 /\ assoc "master_password" body = JUndefined)).
Proof.
  cbv zeta. unfold onLogin. cbn [loginCredentials].
  destruct (given (masterPassword (loginCredentials st))) eqn:Em;
    [| destruct (given (email (loginCredentials st))) eqn:Ee].
  - split; [intros [? _]; discriminate |]. intros _.
    eexists. split; [reflexivity |].
    unfold login_body. cbn [masterPassword email password]. rewrite Em.
    destruct (masterPassword (loginCredentials st)) as [m |];
      [| discriminate Em].
    cbn. split; [reflexivity |]. split; [reflexivity |].
    split; [intros _; split; reflexivity | intros ?; discriminate].
  - split; [intros [_ ?]; discriminate |]. intros _.
    eexists. split; [reflexivity |].
    unfold login_body. cbn [masterPassword email password]. rewrite Ee.
    destruct (email (loginCredentials st)) as [m |]; [| discriminate Ee].
    cbn. split; [reflexivity |]. split; [reflexivity |].
    split; [intros ?; discriminate | intros _; split; reflexivity].
  - split; [intros _; auto |]. intros [? | ?]; discriminate.
Qed.

End SignIn.

(** [AuthService.login] called with neither selector still posts the
    request, and the dialog with both fields filled in posts one too, with
    the master password. *)
Lemma login_is_sent_without_or_with_both_selectors :
  @AuthService.login exampleEnvironment
    (AuthService.mkCredentials None "secret" None)
  = mkRequest POST "http://localhost:8000/api/auth/login"
      (JsonBody (JObj [("password", JStr "secret")])) []
  /\ snd (@AuthModal.onLogin exampleEnvironment
            (AuthModal.mkState
               (AuthService.mkCredentials (Some "ada@example.org") "secret"
                                          (Some "master"))
               false ""))
     = [mkRequest POST "http://localhost:8000/api/auth/login"
          (JsonBody (JObj [("password", JStr "secret");
                           ("master_password", JStr "master")])) []].
Proof. vm_compute. split; reflexivity. Qed.

Example onLogin_without_selector :
  @AuthModal.onLogin exampleEnvironment
    (AuthModal.mkState (AuthService.mkCredentials (Some "") "secret" (Some ""))
                       false "old message")
  = (AuthModal.mkState (AuthService.mkCredentials (Some "") "secret" (Some ""))
                       false
                       "Please provide either email/password or master password",
     []).
Proof. reflexivity. Qed.

(** ** Unauthorized responses *)

Definition unauthorized : HttpErrorResponse :=
  mkHttpError 401 "Http failure response: 401 Unauthorized"
              (JStr "Not authenticated") None.

(** C4, as the code has it: a 401 becomes the one "Authentication
    required" error in [transferStyle] and in [deleteGalleryItem], whatever
    else the response carries, and the gallery page opens the sign-in
    dialog on that error. *)
Theorem unauthorized_is_AuthRequired_in_transfer_and_delete
    `{Host} (error : HttpErrorResponse) (st : GalleryPage.State) :
  status error = 401 ->
  failure_of call_transferStyle error = Thrown AuthRequired
  /\ failure_of call_deleteGalleryItem error = Thrown AuthRequired
  /\ GalleryPage.showAuthModal (GalleryPage.deleteItem_error st AuthRequired)
     = true.
Proof.
  intros E. unfold failure_of, StyleTransferService.transferStyle_catchError,
    GalleryService.deleteGalleryItem_catchError.
  rewrite E. auto.
Qed.

Lemma unauthorized_is_AuthRequired_example :
  @failure_of exampleHost call_transferStyle unauthorized = Thrown AuthRequired
  /\ @failure_of exampleHost call_deleteGalleryItem unauthorized
     = Thrown AuthRequired
  /\ GalleryPage.showAuthModal
       (GalleryPage.deleteItem_error
          (GalleryPage.mkState [] [] "newest" "all" false []) AuthRequired)
     = true.
Proof.
  apply (@unauthorized_is_AuthRequired_in_transfer_and_delete
           exampleHost unauthorized). reflexivity.
Defined.

(** The same 401 from the admin list, the job status and the gallery
    list: the first is handed over as it came, the others get their own
    messages. *)
Lemma unauthorized_elsewhere_is_not_AuthRequired :
  @failure_of exampleHost call_admin_loadRequests unauthorized
  = Untouched unauthorized
  /\ AdminPage.loadRequests_error (AdminPage.mkState (JArr []) true) unauthorized
     = AdminPage.mkState (JArr []) false
  /\ @failure_of exampleHost call_getJobStatus unauthorized
     = Thrown "Failed to get job status: Http failure response: 401 Unauthorized"
  /\ @failure_of exampleHost call_getGalleryItems unauthorized
     = Thrown ("Error Code: 401" +:+ GalleryService.newline
               +:+ "Message: Http failure response: 401 Unauthorized")
  /\ @failure_of exampleHost call_login unauthorized
     = Thrown "Not authenticated".
Proof. vm_compute. repeat split. Qed.

(** ** The sign of a difference

    The comparators of the gallery page return a difference of two
    numbers, and [sort] reads its sign.  This section derives, from the
    specification of binary64 subtraction and comparison, that
    [b - a > 0] exactly when [a < b]. *)

Section Binary.
Variables prec emax : Z.
Hypothesis prec_pos : 0 < prec.

Abbreviation emin := (SpecFloat.emin prec emax).
Abbreviation fexp := (SpecFloat.fexp prec emax).

Lemma digits2_pos_bounds (m : positive) :
  2 ^ (Z.pos (digits2_pos m) - 1) <= Z.pos m < 2 ^ Z.pos (digits2_pos m).
Proof.
  induction m as [m IH | m IH |]; cbn [digits2_pos].
  - rewrite Pos2Z.inj_xI, Pos2Z.inj_succ.
    replace (Z.succ (Z.pos (digits2_pos m)) - 1)
      with (Z.succ (Z.pos (digits2_pos m) - 1)) by lia.
    rewrite !Z.pow_succ_r by lia. lia.
  - change (Z.pos m~0) with (2 * Z.pos m). rewrite Pos2Z.inj_succ.
    replace (Z.succ (Z.pos (digits2_pos m)) - 1)
      with (Z.succ (Z.pos (digits2_pos m) - 1)) by lia.
    rewrite !Z.pow_succ_r by lia. lia.
  - change (2 ^ (1 - 1)) with 1. change (2 ^ 1) with 2. lia.
Qed.

Lemma Zdigits2_bounds (m : Z) :
  0 < m -> 2 ^ (Zdigits2 m - 1) <= m < 2 ^ Zdigits2 m.
Proof.
  destruct m as [| m | m]; try lia. intros _. apply digits2_pos_bounds.
Qed.

Lemma Zdigits2_pos (m : Z) : 0 < m -> 0 < Zdigits2 m.
Proof. destruct m; simpl; lia. Qed.

Lemma Zdigits2_mono (m n : Z) : 0 < m -> m <= n -> Zdigits2 m <= Zdigits2 n.
Proof.
  intros Hm Hn.
  pose proof (Zdigits2_bounds m Hm) as [Lm _].
  pose proof (Zdigits2_bounds n ltac:(lia)) as [_ Un].
  pose proof (Zdigits2_pos m Hm). pose proof (Zdigits2_pos n ltac:(lia)).
  assert (L : 2 ^ (Zdigits2 m - 1) < 2 ^ Zdigits2 n) by lia.
  apply Z.pow_lt_mono_r_iff in L; lia.
Qed.

Lemma iter_xO (m d : positive) : Z.pos (Pos.iter xO m d) = Z.pos m * 2 ^ Z.pos d.
Proof.
  induction d as [| d IH] using Pos.peano_ind.
  - simpl. lia.
  - rewrite Pos.iter_succ, Pos2Z.inj_xO, IH, Pos2Z.inj_succ, Z.pow_succ_r; lia.
Qed.

Lemma shl_align_spec (m : positive) (e e' : Z) :
  Z.pos (fst (shl_align m e e')) = Z.pos m * 2 ^ (e - Z.min e e')
  /\ snd (shl_align m e e') = Z.min e e'.
Proof.
  unfold shl_align. destruct (e' - e) as [| d | d] eqn:E; cbn [fst snd].
  - replace (Z.min e e') with e by lia. rewrite Z.sub_diag. simpl. lia.
  - replace (Z.min e e') with e by lia. rewrite Z.sub_diag. simpl. lia.
  - replace (Z.min e e') with e' by lia.
    replace (e - e') with (Z.pos d) by lia. split; [apply iter_xO | reflexivity].
Qed.

Lemma shr_1_spec mrs :
  0 <= shr_m mrs -> shr_m (shr_1 mrs) = shr_m mrs / 2.
Proof.
  destruct mrs as [m r s]. cbn [shr_m shr_1].
  destruct m as [| [p | p |] | p]; cbn [shr_m]; intros Hm; try lia.
  - reflexivity.
  - apply Z.div_unique with (r := 1); lia.
  - apply Z.div_unique with (r := 0); lia.
  - reflexivity.
Qed.

Lemma iter_pos_shr_1 (p : positive) : forall mrs,
  0 <= shr_m mrs ->
  shr_m (SpecFloat.iter_pos shr_1 p mrs) = shr_m mrs / 2 ^ Z.pos p.
Proof.
  induction p as [p IH | p IH |]; intros mrs Hm; cbn [SpecFloat.iter_pos].
  - assert (H1 : 0 <= shr_m (shr_1 mrs)).
    { rewrite shr_1_spec by exact Hm. apply Z.div_pos; lia. }
    assert (H2 : 0 <= shr_m (SpecFloat.iter_pos shr_1 p (shr_1 mrs))).
    { rewrite IH by exact H1. apply Z.div_pos; [lia |]. apply Z.pow_pos_nonneg; lia. }
    rewrite IH by exact H2. rewrite IH by exact H1. rewrite shr_1_spec by exact Hm.
    assert (P : 0 < 2 ^ Z.pos p) by (apply Z.pow_pos_nonneg; lia).
    rewrite !Z.div_div by lia.
    f_equal. rewrite Pos2Z.inj_xI.
    replace (2 * Z.pos p + 1) with (1 + Z.pos p + Z.pos p) by lia.
    rewrite !Z.pow_add_r by lia. lia.
  - assert (H2 : 0 <= shr_m (SpecFloat.iter_pos shr_1 p mrs)).
    { rewrite IH by exact Hm. apply Z.div_pos; [lia |]. apply Z.pow_pos_nonneg; lia. }
    rewrite IH by exact H2. rewrite IH by exact Hm.
    assert (P : 0 < 2 ^ Z.pos p) by (apply Z.pow_pos_nonneg; lia).
    rewrite !Z.div_div by lia.
    f_equal. change (Z.pos p~0) with (2 * Z.pos p).
    replace (2 * Z.pos p) with (Z.pos p + Z.pos p) by lia.
    rewrite !Z.pow_add_r by lia. lia.
  - rewrite shr_1_spec by exact Hm. reflexivity.
Qed.

(** A positive mantissa at an exponent that puts the number at or above
    the smallest subnormal. *)
Definition above_emin (m e : Z) : Prop := 0 < m /\ emin < Zdigits2 m + e.

Lemma shr_record_of_loc_m m l : shr_m (shr_record_of_loc m l) = m.
Proof. destruct l as [| []]; reflexivity. Qed.

Lemma shr_fexp_above m e l :
  above_emin m e ->
  above_emin (shr_m (fst (shr_fexp prec emax m e l))) (snd (shr_fexp prec emax m e l)).
Proof.
  intros [Hm He]. unfold shr_fexp, shr.
  destruct (fexp (Zdigits2 m + e) - e) as [| k | k] eqn:E; cbn [fst snd];
    rewrite ?shr_record_of_loc_m; try (split; assumption).
  rewrite iter_pos_shr_1 by (rewrite shr_record_of_loc_m; lia).
  rewrite shr_record_of_loc_m.
  pose proof (Zdigits2_bounds m Hm) as [Lm Um].
  pose proof (Zdigits2_pos m Hm) as Dm.
  assert (K : Z.pos k < Zdigits2 m).
  { unfold SpecFloat.fexp in E. lia. }
  assert (P : 0 < 2 ^ Z.pos k) by (apply Z.pow_pos_nonneg; lia).
  assert (Q : 2 ^ (Zdigits2 m - 1 - Z.pos k) <= m / 2 ^ Z.pos k).
  { apply Z.div_le_lower_bound; [lia |].
    rewrite <- Z.pow_add_r by lia.
    replace (Z.pos k + (Zdigits2 m - 1 - Z.pos k)) with (Zdigits2 m - 1) by lia.
    exact Lm. }
  assert (Q0 : 0 < 2 ^ (Zdigits2 m - 1 - Z.pos k)) by (apply Z.pow_pos_nonneg; lia).
  split; [lia |].
  pose proof (Zdigits2_bounds (m / 2 ^ Z.pos k) ltac:(lia)) as [_ Uq].
  pose proof (Zdigits2_pos (m / 2 ^ Z.pos k) ltac:(lia)) as Dq.
  assert (L : 2 ^ (Zdigits2 m - 1 - Z.pos k) < 2 ^ Zdigits2 (m / 2 ^ Z.pos k)) by lia.
  apply Z.pow_lt_mono_r_iff in L; lia.
Qed.

Lemma round_nearest_even_above m l e :
  above_emin m e -> above_emin (round_nearest_even m l) e.
Proof.
  intros [Hm He].
  assert (R : m <= round_nearest_even m l).
  { destruct l as [| []]; simpl; try lia. destruct (Z.even m); lia. }
  split; [lia |].
  pose proof (Zdigits2_mono m _ Hm R). lia.
Qed.

Lemma binary_round_aux_sign s m e l :
  above_emin m e ->
  (exists m' e', binary_round_aux prec emax s m e l = S754_finite s m' e')
  \/ binary_round_aux prec emax s m e l = S754_infinity s.
Proof.
  intros H. unfold binary_round_aux.
  pose proof (shr_fexp_above m e l H) as H1.
  destruct (shr_fexp prec emax m e l) as [mrs' e1]. cbn [fst snd] in H1.
  pose proof (round_nearest_even_above _ (loc_of_shr_record mrs') _ H1) as H2.
  pose proof (shr_fexp_above _ _ loc_Exact H2) as H3.
  destruct (shr_fexp prec emax _ e1 loc_Exact) as [mrs'' e2]. cbn [fst snd] in H3.
  destruct H3 as [H3 _].
  destruct (shr_m mrs'') as [| q | q]; try lia.
  destruct (e2 <=? emax - prec); [left; eauto | right; reflexivity].
Qed.

Lemma binary_round_sign s m e :
  emin <= e ->
  (exists m' e', binary_round prec emax s m e = S754_finite s m' e')
  \/ binary_round prec emax s m e = S754_infinity s.
Proof.
  intros He. unfold binary_round.
  pose proof (shl_align_spec m e (fexp (Z.pos (digits2_pos m) + e))) as [A B].
  destruct (shl_align m e _) as [mz ez]. cbn [fst snd] in A, B.
  apply binary_round_aux_sign. split; [lia |].
  assert (P : 0 <= e - Z.min e (fexp (Z.pos (digits2_pos m) + e))) by lia.
  pose proof (digits2_pos_bounds m) as [Lm _].
  pose proof (Zdigits2_bounds (Z.pos mz) ltac:(lia)) as [_ Uz].
  change (Zdigits2 (Z.pos mz)) with (Z.pos (digits2_pos mz)) in *.
  rewrite A in Uz. subst ez.
  set (j := e - Z.min e (fexp (Z.pos (digits2_pos m) + e))) in *.
  assert (L : 2 ^ (Z.pos (digits2_pos m) - 1 + j) < 2 ^ Z.pos (digits2_pos mz)).
  { rewrite Z.pow_add_r by lia.
    assert (0 < 2 ^ j) by (apply Z.pow_pos_nonneg; lia). nia. }
  apply Z.pow_lt_mono_r_iff in L; lia.
Qed.

Lemma binary_normalize_sign (d e : Z) :
  emin <= e ->
  SFltb (S754_zero false) (binary_normalize prec emax d e false) = (0 <? d).
Proof.
  intros He. destruct d as [| m | m]; cbn [binary_normalize].
  - reflexivity.
  - destruct (binary_round_sign false m e He) as [(m' & e' & ->) | ->]; reflexivity.
  - destruct (binary_round_sign true m e He) as [(m' & e' & ->) | ->]; reflexivity.
Qed.

Lemma bounded_canonical m e :
  bounded prec emax m e = true ->
  emin <= e /\ Z.pos (digits2_pos m) <= prec
  /\ (emin < e -> Z.pos (digits2_pos m) = prec).
Proof.
  unfold bounded, canonical_mantissa, SpecFloat.fexp. intros H.
  apply andb_prop in H. destruct H as [H _]. apply Z.eqb_eq in H. lia.
Qed.

Lemma SFsub_sign (x y : spec_float) :
  SpecFloat.valid_binary prec emax x = true ->
  SpecFloat.valid_binary prec emax y = true ->
  SFltb (S754_zero false) (SFsub prec emax y x) = SFltb x y.
Proof.
  destruct x as [sx | sx | | sx mx ex], y as [sy | sy | | sy my ey];
    cbn [SpecFloat.valid_binary]; intros Vx Vy;
    try (destruct sx; reflexivity);
    try (destruct sy; reflexivity);
    try (destruct sx, sy; reflexivity);
    try reflexivity.
  destruct (bounded_canonical _ _ Vx) as (Ex & Dx & Nx).
  destruct (bounded_canonical _ _ Vy) as (Ey & Dy & Ny).
  cbn [SFsub]. rewrite binary_normalize_sign by lia.
  destruct (shl_align_spec my ey (Z.min ey ex)) as [Ay _].
  destruct (shl_align_spec mx ex (Z.min ey ex)) as [Ax _].
  rewrite Ay, Ax.
  pose proof (digits2_pos_bounds mx) as [Lx Ux].
  pose proof (digits2_pos_bounds my) as [Ly Uy].
  set (kx := ex - Z.min ex (Z.min ey ex)).
  set (ky := ey - Z.min ey (Z.min ey ex)).
  assert (Px : 2 ^ Z.pos (digits2_pos mx) <= 2 ^ prec)
    by (apply Z.pow_le_mono_r; lia).
  assert (Py : 2 ^ Z.pos (digits2_pos my) <= 2 ^ prec)
    by (apply Z.pow_le_mono_r; lia).
  assert (P2 : 2 * 2 ^ (prec - 1) = 2 ^ prec)
    by (rewrite <- Z.pow_succ_r by lia; f_equal; lia).
  assert (K : forall k, 1 <= k -> 2 <= 2 ^ k).
  { intros k Hk. change 2 with (2 ^ 1) at 1. apply Z.pow_le_mono_r; lia. }
  unfold SFltb, SFcompare.
  destruct (Z.compare_spec ex ey) as [E | E | E].
  - replace kx with 0 by (unfold kx; lia). replace ky with 0 by (unfold ky; lia).
    rewrite Z.pow_0_r, !Z.mul_1_r.
    rewrite Pos.compare_cont_spec. cbn [Pos.switch_Eq].
    destruct sx, sy; cbn [cond_Zopp];
      destruct (Pos.compare_spec mx my) as [C | C | C];
      cbn [CompOpp Pos.switch_Eq]; try subst;
      first [apply Z.ltb_lt | apply Z.ltb_ge]; lia.
  - replace kx with 0 by (unfold kx; lia). rewrite Z.pow_0_r, Z.mul_1_r.
    specialize (K ky ltac:(unfold ky; lia)).
    specialize (Ny ltac:(lia)). rewrite Ny in *.
    destruct sx, sy; cbn [cond_Zopp];
      first [apply Z.ltb_lt | apply Z.ltb_ge]; nia.
  - replace ky with 0 by (unfold ky; lia). rewrite Z.pow_0_r, Z.mul_1_r.
    specialize (K kx ltac:(unfold kx; lia)).
    specialize (Nx ltac:(lia)). rewrite Nx in *.
    destruct sx, sy; cbn [cond_Zopp];
      first [apply Z.ltb_lt | apply Z.ltb_ge]; nia.
Qed.

End Binary.

(** [0 < b - a] is [a < b], for all numbers, NaN and the infinities
    included. *)
Lemma sub_positive (a b : float) :
  PrimFloat.ltb 0 (b - a) = PrimFloat.ltb a b.
Proof.
  rewrite !ltb_spec, sub_spec.
  change (Prim2SF 0) with (S754_zero false).
  apply (SFsub_sign prec emax); [reflexivity | apply Prim2SF_valid ..].
Qed.

(** ** The gallery view *)

Section SortFacts.
Context {A : Type} (compareFn : A -> A -> option float).

Lemma sort_insert_perm x : forall l placed,
  sort_insert compareFn x l = Some placed -> Permutation placed (x :: l).
Proof.
  induction l as [| y l IH]; simpl; intros placed E.
  - inversion E. reflexivity.
  - destruct (compareFn x y) as [v |]; [| discriminate].
    destruct (PrimFloat.ltb 0 v).
    + destruct (sort_insert compareFn x l) as [r |]; [| discriminate].
      inversion E. rewrite (IH r eq_refl). apply perm_swap.
    + inversion E. reflexivity.
Qed.

Lemma Array_sort_perm : forall l sorted,
  Array_sort compareFn l = Some sorted -> Permutation sorted l.
Proof.
  induction l as [| x l IH]; simpl; intros sorted E.
  - inversion E. reflexivity.
  - destruct (Array_sort compareFn l) as [r |]; [| discriminate].
    rewrite (sort_insert_perm _ _ _ E). constructor. now apply IH.
Qed.

Hypothesis never_throws : forall a b, compareFn a b <> None.

Lemma sort_insert_returns x l : exists placed, sort_insert compareFn x l = Some placed.
Proof.
  induction l as [| y l [r IH]]; simpl; [eauto |].
  destruct (compareFn x y) as [v |] eqn:E; [| now destruct (never_throws x y)].
  destruct (PrimFloat.ltb 0 v); [rewrite IH |]; eauto.
Qed.

Lemma Array_sort_returns l : exists sorted, Array_sort compareFn l = Some sorted.
Proof.
  induction l as [| x l [r IH]]; simpl; [eauto |].
  rewrite IH. apply sort_insert_returns.
Qed.

End SortFacts.

(** A stable sort by a relation "[a] belongs after [b]": each element
    is placed, from the right, before the first element it does not
    belong after. *)
Section StableSort.
Context {A : Type} (after : A -> A -> bool).

Fixpoint insert_stable (x : A) (l : list A) : list A :=
  match l with
  | [] => [x]
  | y :: l' => if after x y then y :: insert_stable x l' else x :: y :: l'
  end.

Fixpoint stable_sort (l : list A) : list A :=
  match l with
  | [] => []
  | x :: l' => insert_stable x (stable_sort l')
  end.

Lemma insert_stable_perm x l : Permutation (insert_stable x l) (x :: l).
Proof.
  induction l as [| y l IH]; simpl; [reflexivity |].
  destruct (after x y); [| reflexivity].
  rewrite IH. apply perm_swap.
Qed.

Lemma stable_sort_perm l : Permutation (stable_sort l) l.
Proof.
  induction l as [| x l IH]; simpl; [reflexivity |].
  rewrite insert_stable_perm. now constructor.
Qed.

End StableSort.

Lemma filter_all {A} (l : list A) : List.filter (fun _ => true) l = l.
Proof. induction l as [| x l IH]; simpl; [| rewrite IH]; reflexivity. Qed.

Lemma In_map_Full (g : GalleryItem) (gs : list GalleryItem) :
  In (Full g) (map Full gs) <-> In g gs.
Proof.
  rewrite in_map_iff. split.
  - intros (g' & E & Hin). now inversion E; subst.
  - intros Hin. now exists g.
Qed.

Section Gallery.
Import GalleryPage.
Context `{WeightPresetService} `{Environment}.

(** The label the external classifier gives to an item's weights. *)
Definition classified (item : GalleryItem) : string :=
  getPresetLabel (styleWeight (parameters item))
                 (contentWeight (parameters item)).

(** The filter as documented: 'all' passes every item, any other key
    the items the classifier labels with it. *)
Definition documented_filter (filterKey : string) (item : GalleryItem) : bool :=
  String.eqb filterKey "all" || String.eqb (classified item) filterKey.

(** The sort keys as documented: the sum of the two losses for
    'lossAsc' and 'lossDesc', the processing time, the number of steps,
    and the timestamp for 'newest', 'oldest' and any unrecognized key. *)
Definition documented_key (sortKey : string) (item : GalleryItem) : float :=
  if String.eqb sortKey "lossAsc" || String.eqb sortKey "lossDesc"
  then (styleLoss item + contentLoss item)%float
  else if String.eqb sortKey "processingTime" then processingTime item
  else if String.eqb sortKey "steps" then numSteps (parameters item)
  else timestamp item.

(** 'oldest' and 'lossAsc' are ascending, every other key descending. *)
Definition documented_ascending (sortKey : string) : bool :=
  String.eqb sortKey "oldest" || String.eqb sortKey "lossAsc".

(** Item [a] belongs after item [b]. *)
Definition documented_after (sortKey : string) (a b : GalleryItem) : bool :=
  if documented_ascending sortKey
  then PrimFloat.ltb (documented_key sortKey b) (documented_key sortKey a)
  else PrimFloat.ltb (documented_key sortKey a) (documented_key sortKey b).

(** [view = sort(filter(baseCollection, filterKey), sortKey)], ties in
    the order of the collection. *)
Definition documented_view (sortKey filterKey : string)
    (baseCollection : list GalleryItem) : list GalleryItem :=
  stable_sort (documented_after sortKey)
              (List.filter (documented_filter filterKey) baseCollection).

(** The view shown after the filter key is set to [key]. *)
Definition view (st : State) (key : string) : list Item :=
  filteredItems (state_after (filterByPreset st key)).

Lemma comparator_full sortKey a b :
  exists v, comparator sortKey (Full a) (Full b) = Some v
            /\ PrimFloat.ltb 0 v = documented_after sortKey a b.
Proof.
  unfold comparator, documented_after, documented_ascending, documented_key.
  destruct (String.eqb_spec sortKey "newest") as [-> | _];
    [eexists; split; [reflexivity | apply sub_positive] |].
  destruct (String.eqb_spec sortKey "oldest") as [-> | _];
    [eexists; split; [reflexivity | apply sub_positive] |].
  destruct (String.eqb_spec sortKey "lossAsc") as [-> | _];
    [eexists; split; [reflexivity | apply sub_positive] |].
  destruct (String.eqb_spec sortKey "lossDesc") as [-> | _];
    [eexists; split; [reflexivity | apply sub_positive] |].
  destruct (String.eqb_spec sortKey "processingTime") as [-> | _];
    [eexists; split; [reflexivity | apply sub_positive] |].
  destruct (String.eqb_spec sortKey "steps") as [-> | _];
    eexists; (split; [reflexivity | apply sub_positive]).
Qed.

Lemma sort_insert_full sortKey x : forall l,
  sort_insert (comparator sortKey) (Full x) (map Full l)
  = Some (map Full (insert_stable (documented_after sortKey) x l)).
Proof.
  induction l as [| y l IH]; simpl; [reflexivity |].
  destruct (comparator_full sortKey x y) as (v & -> & <-).
  destruct (PrimFloat.ltb 0 v); [rewrite IH |]; reflexivity.
Qed.

Lemma Array_sort_full sortKey : forall l,
  Array_sort (comparator sortKey) (map Full l)
  = Some (map Full (stable_sort (documented_after sortKey) l)).
Proof.
  induction l as [| x l IH]; simpl; [reflexivity |].
  rewrite IH. apply sort_insert_full.
Qed.

Lemma Array_filter_full key : forall l,
  Array_filter (passes key) (map Full l)
  = Some (map Full (List.filter (fun item => String.eqb (classified item) key) l)).
Proof.
  induction l as [| x l IH]; simpl; [reflexivity |].
  rewrite IH. unfold getBalanceLabel, classified.
  now destruct (String.eqb _ key).
Qed.

(** On a collection of full items the view is rebuilt as documented. *)
Lemma applySortingAndFilters_full gs shown sortKey filterKey modal notes :
  applySortingAndFilters
    (mkState (map Full gs) shown sortKey filterKey modal notes)
  = Returns (mkState (map Full gs)
                     (map Full (documented_view sortKey filterKey gs))
                     sortKey filterKey modal notes).
Proof.
  unfold applySortingAndFilters, documented_view.
  cbn [allGalleryItems activePresetFilter sortOption showAuthModal alerts].
  destruct (String.eqb filterKey "all") eqn:E.
  - rewrite Array_sort_full.
    replace (List.filter (documented_filter filterKey) gs) with gs;
      [reflexivity |].
    rewrite <- (filter_all gs) at 1. apply filter_ext.
    intros g. unfold documented_filter. now rewrite E.
  - rewrite Array_filter_full, Array_sort_full.
    replace (List.filter (documented_filter filterKey) gs)
      with (List.filter (fun item => String.eqb (classified item) filterKey) gs);
      [reflexivity |].
    apply filter_ext. intros g. unfold documented_filter. now rewrite E.
Qed.

Lemma documented_view_perm sortKey filterKey gs :
  Permutation (documented_view sortKey filterKey gs)
              (List.filter (documented_filter filterKey) gs).
Proof. apply stable_sort_perm. Qed.

Lemma documented_view_In sortKey filterKey gs item :
  In item (documented_view sortKey filterKey gs)
  <-> In item gs /\ (filterKey = "all" \/ classified item = filterKey).
Proof.
  rewrite <- (String.eqb_eq filterKey "all"),
    <- (String.eqb_eq (classified item) filterKey), <- orb_true_iff.
  change (String.eqb filterKey "all" || String.eqb (classified item) filterKey)
    with (documented_filter filterKey item).
  rewrite <- filter_In.
  split; apply Permutation_in; [| symmetry]; apply documented_view_perm.
Qed.

Lemma view_full gs shown sortKey filterKey modal notes key :
  filterByPreset (mkState (map Full gs) shown sortKey filterKey modal notes) key
  = Returns (mkState (map Full gs)
                     (map Full (documented_view sortKey key gs))
                     sortKey key modal notes).
Proof. unfold filterByPreset. apply applySortingAndFilters_full. Qed.

Lemma comparator_never_throws sortKey :
  sortKey <> "steps" -> forall a b, comparator sortKey a b <> None.
Proof.
  intros Hk a b. unfold comparator.
  repeat match goal with
         | |- context [String.eqb sortKey ?k] =>
             destruct (String.eqb_spec sortKey k); try discriminate
         end.
  contradiction.
Qed.

(** X26: on a collection of full items every choice of filter returns.
    The 'all' view is a rearrangement of the collection (same items,
    hence same ids and same count); the view for any other key [L]
    consists of exactly the items the external classifier labels [L];
    the views of two different such keys share no item, and every item
    is in the view of its own label.  Where no sort key is NaN the view
    is the documented one, in the documented order.  On any collection,
    empty objects included, the 'all' view is a rearrangement of the
    collection unless the sort is by steps. *)
Theorem filter_views_partition_collection
    (gs : list GalleryItem) (shown : list Item) (sortKey filterKey : string)
    (modal : bool) (notes : list string) (any : State) :
  let st := mkState (map Full gs) shown sortKey filterKey modal notes in
  (forall L, exists listed,
     filterByPreset st L
     = Returns (mkState (map Full gs) (map Full listed) sortKey L modal notes)
     /\ Permutation listed (List.filter (documented_filter L) gs))
  /\ Permutation (view st "all") (map Full gs)
  /\ (exists listed,
        view st "all" = map Full listed
        /\ Permutation (map GalleryModel.id listed) (map GalleryModel.id gs))
  /\ length (view st "all") = length gs
  /\ (forall L, L <> "all" ->
        Permutation (view st L)
          (map Full (List.filter
                       (fun item => String.eqb (classified item) L) gs)))
  /\ (forall L item, L <> "all" ->
        (In (Full item) (view st L) <-> In item gs /\ classified item = L))
  /\ (forall L, ~ In Bare (view st L))
  /\ (forall L1 L2 item, L1 <> "all" -> L2 <> "all" ->
        In (Full item) (view st L1) -> In (Full item) (view st L2) -> L1 = L2)
  /\ (forall item, In item gs -> In (Full item) (view st (classified item)))
  /\ (forall L,
        (forall item, In item gs ->
           PrimFloat.is_nan (documented_key sortKey item) = false) ->
        view st L = map Full (documented_view sortKey L gs))
  /\ (sortOption any <> "steps" ->
        (exists st', filterByPreset any "all" = Returns st')
        /\ Permutation (view any "all") (allGalleryItems any)).
Proof.
  intros st.
  assert (V : forall L, view st L = map Full (documented_view sortKey L gs)).
  { intros L. unfold view, st. now rewrite view_full. }
  assert (I : forall L item,
             In (Full item) (view st L)
             <-> In item gs /\ (L = "all" \/ classified item = L)).
  { intros L item. rewrite V, In_map_Full. apply documented_view_In. }
  assert (A : Permutation (documented_view sortKey "all" gs) gs).
  { rewrite documented_view_perm. rewrite <- (filter_all gs) at 2.
    erewrite filter_ext; [reflexivity |]. reflexivity. }
  split.
  { intros L. exists (documented_view sortKey L gs).
    split; [apply view_full | apply documented_view_perm]. }
  split; [rewrite V; now apply Permutation_map |].
  split.
  { exists (documented_view sortKey "all" gs).
    split; [apply V | now apply Permutation_map]. }
  split.
  { rewrite V, length_map. now apply Permutation_length. }
  split.
  { intros L HL. rewrite V. apply Permutation_map.
    rewrite documented_view_perm. erewrite filter_ext; [reflexivity |].
    intros item. unfold documented_filter.
    apply String.eqb_neq in HL. now rewrite HL. }
  split.
  { intros L item HL. rewrite I. intuition. }
  split.
  { intros L. rewrite V, in_map_iff. intros (item & E & _). discriminate. }
  split.
  { intros L1 L2 item H1 H2 I1 I2. apply I in I1, I2.
    destruct I1 as [_ [E1 | E1]], I2 as [_ [E2 | E2]]; congruence. }
  split.
  { intros item Hin. apply I. auto. }
  split.
  { intros L _. apply V. }
  intros Hsort. unfold view, filterByPreset, applySortingAndFilters.
  cbn [allGalleryItems activePresetFilter sortOption showAuthModal alerts].
  change (String.eqb "all" "all") with true. cbv iota.
  destruct (Array_sort_returns _ (comparator_never_throws _ Hsort)
                               (allGalleryItems any)) as [sorted E].
  rewrite E. split; [eauto |]. cbn [state_after filteredItems].
  now apply (Array_sort_perm (comparator (sortOption any))).
Qed.

(** The items that remain when the one with id [target] is deleted. *)
Definition remaining (target : string) (gs : list GalleryItem)
  : list GalleryItem :=
  List.filter (fun item => negb (String.eqb (GalleryModel.id item) target)) gs.

(** X25: without a stored token [deleteItem] sends nothing, leaves the
    collection and the view as they are and opens the sign-in dialog;
    the same holds when the server answers the delete with 401.  With a
    token and the confirmation, the delete request for that id is sent and
    nothing changes until it succeeds; on success the base collection
    loses the items with that id and no other, empty objects are kept,
    and on a collection of full items the handler returns with the view
    rebuilt from the new collection: the remaining items that pass the
    filter, in the documented order where no sort key is NaN. *)
Theorem deleteItem_needs_session_and_removes_target
    (auth : AuthService.State) (confirmed : bool) (st : State)
    (target : string) (gs : list GalleryItem) (shown : list Item)
    (sortKey filterKey : string) (modal : bool) (notes : list string) :
  (AuthService.isAuthenticated auth = false ->
     let after := fst (deleteItem auth confirmed st target) in
     snd (deleteItem auth confirmed st target) = []
     /\ allGalleryItems after = allGalleryItems st
     /\ filteredItems after = filteredItems st
     /\ showAuthModal after = true)
  /\ (forall error, status error = 401 ->
        let after :=
          deleteItem_error st (GalleryService.deleteGalleryItem_catchError error) in
        allGalleryItems after = allGalleryItems st
        /\ filteredItems after = filteredItems st
        /\ showAuthModal after = true)
  /\ (AuthService.isAuthenticated auth = true ->
        deleteItem auth true st target
        = (st, [GalleryService.deleteGalleryItem target]))
  /\ (let after := state_after (deleteItem_next st target) in
      (forall item,
         In (Full item) (allGalleryItems after)
         <-> In (Full item) (allGalleryItems st)
             /\ GalleryModel.id item <> target)
      /\ (In Bare (allGalleryItems after) <-> In Bare (allGalleryItems st))
      /\ (exists dropped,
            Permutation (allGalleryItems st)
                        (allGalleryItems after ++ map Full dropped)
            /\ Forall (fun item => GalleryModel.id item = target) dropped))
  /\ (let full := mkState (map Full gs) shown sortKey filterKey modal notes in
      exists listed,
        deleteItem_next full target
        = Returns (mkState (map Full (remaining target gs)) (map Full listed)
                           sortKey filterKey modal notes)
        /\ Permutation listed
             (List.filter (documented_filter filterKey) (remaining target gs))
        /\ (forall item,
              In item listed
              <-> (In item gs /\ GalleryModel.id item <> target)
                  /\ (filterKey = "all" \/ classified item = filterKey))
        /\ ((forall item, In item (remaining target gs) ->
               PrimFloat.is_nan (documented_key sortKey item) = false) ->
            listed = documented_view sortKey filterKey (remaining target gs))).
Proof.
  assert (B : forall after,
            after = state_after (deleteItem_next st target) ->
            allGalleryItems after
            = List.filter (id_differs target) (allGalleryItems st)).
  { intros after ->. unfold deleteItem_next, applySortingAndFilters.
    cbn [allGalleryItems activePresetFilter sortOption].
    destruct (if String.eqb (activePresetFilter st) "all" then _ else _)
      as [filtered |]; [| reflexivity].
    now destruct (Array_sort _ filtered). }
  split; [| split; [| split; [| split]]].
  - intros E. unfold deleteItem. rewrite E. simpl. auto.
  - intros error E. unfold GalleryService.deleteGalleryItem_catchError.
    rewrite E. simpl. unfold deleteItem_error.
    replace (includes "Authentication required" AuthRequired) with true
      by (vm_compute; reflexivity).
    simpl. auto.
  - intros E. unfold deleteItem. rewrite E. reflexivity.
  - cbv zeta. rewrite (B _ eq_refl). split; [| split].
    + intros item. rewrite filter_In. cbn [id_differs].
      rewrite negb_true_iff, String.eqb_neq. reflexivity.
    + rewrite filter_In. cbn [id_differs]. intuition.
    + clear B. induction (allGalleryItems st) as [| x l (dropped & P & F)].
      * exists []. split; [reflexivity | constructor].
      * cbn [List.filter]. destruct x as [| g]; cbn [id_differs].
        -- exists dropped. split; [now constructor | exact F].
        -- destruct (String.eqb_spec (GalleryModel.id g) target) as [E | E];
             cbn [negb].
           ++ exists (g :: dropped). split; [| now constructor].
              cbn [map]. rewrite <- Permutation_middle. now constructor.
           ++ exists dropped. split; [now constructor | exact F].
  - cbv zeta. exists (documented_view sortKey filterKey (remaining target gs)).
    split.
    { unfold deleteItem_next.
      cbn [allGalleryItems filteredItems activePresetFilter sortOption
           showAuthModal alerts].
      replace (List.filter (id_differs target) (map Full gs))
        with (map Full (remaining target gs)).
      - apply applySortingAndFilters_full.
      - unfold remaining. induction gs as [| g gs' IH]; [reflexivity |].
        cbn [map List.filter id_differs].
        destruct (negb (String.eqb (GalleryModel.id g) target));
          cbn [map]; now rewrite IH. }
    split; [apply documented_view_perm |].
    split; [| reflexivity].
    intros item. rewrite documented_view_In. unfold remaining.
    rewrite filter_In, negb_true_iff, String.eqb_neq. reflexivity.
Qed.

End Gallery.

(** A collection of three results and its views. *)
Definition item_a : GalleryItem :=
  mkGalleryItem "a" 1700000000000 "/c/a.png" "/s/a.png" "/r/a.png"
                3.75 1.5 2.25 42 (mkGalleryParameters 1000000 1 300 []).
Definition item_b : GalleryItem :=
  mkGalleryItem "b" 1700000200000 "/c/b.png" "/s/b.png" "/r/b.png"
                0.5 0.25 0.25 17 (mkGalleryParameters 1 1 100 []).
Definition item_c : GalleryItem :=
  mkGalleryItem "c" 1700000100000 "/c/c.png" "/s/c.png" "/r/c.png"
                9 4 5 63 (mkGalleryParameters 1000 10 500 []).

Definition example_gallery : GalleryPage.State :=
  GalleryPage.mkState [Full item_a; Full item_b; Full item_c] []
                      "newest" "all" false [].

Definition signed_out : AuthService.State := AuthService.mkState ∅ JNull.

Definition signed_in : AuthService.State :=
  AuthService.mkState
    (<[AuthService.tokenKey := "token-123"]> ∅)
    (JObj [("email", JStr "ada@example.org"); ("isMaster", JBool false)]).

Example example_views :
  @view examplePresets example_gallery "all"
  = [Full item_b; Full item_c; Full item_a]
  /\ @view examplePresets example_gallery "Style Focused"
     = [Full item_c; Full item_a]
  /\ @view examplePresets example_gallery "Balanced" = [Full item_b]
  /\ @view examplePresets example_gallery "Content Focused" = [].
Proof. vm_compute. repeat split. Qed.

Example example_orders :
  map GalleryModel.id (@documented_view examplePresets "oldest" "all"
                         [item_a; item_b; item_c]) = ["a"; "c"; "b"]
  /\ map GalleryModel.id (@documented_view examplePresets "lossAsc" "all"
                            [item_a; item_b; item_c]) = ["b"; "a"; "c"]
  /\ map GalleryModel.id (@documented_view examplePresets "lossDesc" "all"
                            [item_a; item_b; item_c]) = ["c"; "a"; "b"]
  /\ map GalleryModel.id (@documented_view examplePresets "processingTime" "all"
                            [item_a; item_b; item_c]) = ["c"; "a"; "b"]
  /\ map GalleryModel.id (@documented_view examplePresets "steps" "all"
                            [item_a; item_b; item_c]) = ["c"; "a"; "b"]
  /\ map GalleryModel.id (@documented_view examplePresets "shuffled" "all"
                            [item_a; item_b; item_c]) = ["b"; "c"; "a"].
Proof. vm_compute. repeat split. Qed.

Example example_delete :
  snd (@GalleryPage.deleteItem exampleEnvironment signed_out true
         example_gallery "c") = []
  /\ snd (@GalleryPage.deleteItem exampleEnvironment signed_in true
            example_gallery "c")
     = [mkRequest DELETE "http://localhost:8000/api/gallery/c" NoBody []]
  /\ @GalleryPage.deleteItem_next examplePresets example_gallery "c"
     = GalleryPage.Returns
         (GalleryPage.mkState [Full item_a; Full item_b]
                              [Full item_b; Full item_a]
                              "newest" "all" false []).
Proof. vm_compute. repeat split. Qed.

(** The collection the page holds when the server's answer has a null
    element after one result. *)
Definition answer_with_null : list Item := [Full item_a; Bare].

(** C6, at a collection with an empty object: once the collection is
    loaded, choosing the filter 'Balanced' throws in the filter callback;
    the key is stored, and the view still shows both entries, the first
    of which the classifier labels 'Style Focused'. *)
Theorem filter_by_label_throws_on_empty_object :
  let loaded :=
    GalleryPage.mkState answer_with_null answer_with_null
                        "newest" "all" false [] in
  @GalleryService.getGalleryItems_map exampleHost (JArr [JNull]) = [JObj []]
  /\ @GalleryPage.loadGalleryItems_next examplePresets GalleryPage.opened
       answer_with_null
     = GalleryPage.Returns loaded
  /\ @GalleryPage.filterByPreset examplePresets loaded "Balanced"
     = GalleryPage.Throws
         (GalleryPage.mkState answer_with_null answer_with_null
                              "newest" "Balanced" false [])
  /\ @classified examplePresets item_a = "Style Focused"
  /\ @view examplePresets loaded "Balanced" = answer_with_null.
Proof. vm_compute. repeat split. Qed.

(** C5, at a collection with an empty object: with the filter 'Style
    Focused' chosen, the confirmed delete of result "a" by a signed-in
    user is sent; when it succeeds the collection loses "a", the
    recomputation throws in the filter callback, and the view still shows
    the deleted result. *)
Theorem delete_leaves_deleted_item_in_view :
  let loaded :=
    GalleryPage.mkState answer_with_null answer_with_null
                        "newest" "all" false [] in
  let chosen :=
    GalleryPage.mkState answer_with_null answer_with_null
                        "newest" "Style Focused" false [] in
  @GalleryPage.loadGalleryItems_next examplePresets GalleryPage.opened
    answer_with_null
  = GalleryPage.Returns loaded
  /\ @GalleryPage.filterByPreset examplePresets loaded "Style Focused"
     = GalleryPage.Throws chosen
  /\ @GalleryPage.deleteItem exampleEnvironment signed_in true chosen "a"
     = (chosen,
        [mkRequest DELETE "http://localhost:8000/api/gallery/a" NoBody []])
  /\ @GalleryPage.deleteItem_next examplePresets chosen "a"
     = GalleryPage.Throws
         (GalleryPage.mkState [Bare] [Full item_a; Bare]
                              "newest" "Style Focused" false []).
Proof. vm_compute. repeat split. Qed.

(** ** Submitting a job *)

Section Submission.
Import StyleTransferPage.
Context `{Host} `{Environment}.

(** C7, as the code has it: [canApplyStyle], which gates the apply
    control, is false when an image is missing or a job is being
    processed; [onApplyStyle] itself returns at once, with no request and
    no change of state, when an image is missing. *)
Theorem submission_guards
    (auth : AuthService.State) (st : State)
    (params : StyleTransferService.StyleTransferParams) :
  file_of (contentImage st) = None \/ file_of (styleImage st) = None
  \/ isProcessing st = true ->
  canApplyStyle st = false
  /\ (file_of (contentImage st) = None \/ file_of (styleImage st) = None ->
        onApplyStyle auth st params = (st, [])).
Proof.
  intros Hpre. split.
  - unfold canApplyStyle.
    destruct Hpre as [E | [E | E]]; rewrite E.
    + reflexivity.
    + now rewrite andb_false_r.
    + now rewrite andb_false_r.
  - intros [E | E]; unfold onApplyStyle; rewrite E.
    + reflexivity.
    + now destruct (file_of (contentImage st)).
Qed.

End Submission.

Definition both_images_processing : StyleTransferPage.State :=
  StyleTransferPage.mkState
    (Some (StyleTransferPage.mkImageFile (Some "content.png")))
    (Some (StyleTransferPage.mkImageFile (Some "style.png")))
    (Some (StyleTransferService.mkJob "job-1" "processing" None None None
                                      None None))
    true false.

Definition some_params : StyleTransferService.StyleTransferParams :=
  StyleTransferService.mkParams 1000000 1 300 JUndefined.

(** With both images chosen and a token stored, [onApplyStyle] posts a
    new job although one is being processed. *)
Lemma onApplyStyle_submits_while_processing :
  StyleTransferPage.canApplyStyle both_images_processing = false
  /\ snd (@StyleTransferPage.onApplyStyle exampleHost exampleEnvironment
            signed_in both_images_processing some_params)
     = [@StyleTransferService.transferStyle exampleHost exampleEnvironment
          "content.png" "style.png" some_params]
  /\ url (@StyleTransferService.transferStyle exampleHost exampleEnvironment
            "content.png" "style.png" some_params)
     = "http://localhost:8000/api/transfer".
Proof. vm_compute. repeat split. Qed.

Lemma submission_guards_without_style_image :
  let st := StyleTransferPage.mkState
              (Some (StyleTransferPage.mkImageFile (Some "content.png")))
              None None false false in
  StyleTransferPage.canApplyStyle st = false
  /\ (StyleTransferPage.file_of (StyleTransferPage.contentImage st) = None
      \/ StyleTransferPage.file_of (StyleTransferPage.styleImage st) = None ->
      @StyleTransferPage.onApplyStyle exampleHost exampleEnvironment
        signed_in st some_params = (st, [])).
Proof.
  apply (@submission_guards exampleHost exampleEnvironment).
  right. left. reflexivity.
Defined.

(** ** Ingestion of gallery items *)

Section Ingestion.
Import GalleryService.
Context `{Host}.







End Ingestion.



Example ingest_example :
  @GalleryService.mapGalleryItem exampleHost
    (JObj [("id", JStr "a"); ("styleLoss", JNum 1.5); ("contentLoss", JNull);
           ("parameters", JObj [("styleWeight", JNum nan)])])
  = JObj [("id", JStr "a"); ("timestamp", JDate 0);
          ("contentImageUrl", JStr ""); ("styleImageUrl", JStr "");
          ("resultImageUrl", JStr ""); ("bestLoss", JNum 0);
          ("styleLoss", JNum 1.5); ("contentLoss", JNum 0);
          ("processingTime", JNum 0);
          ("parameters",
           JObj [("styleWeight", JNum 0); ("contentWeight", JNum 0);
                 ("numSteps", JNum 300); ("layerWeights", JObj [])])].
Proof. vm_compute. reflexivity. Qed.

(** ** A corrupt stored user record *)

Section StoredUser.
Import AuthService.
Context `{Host}.

(** Reading the stored user never throws, whatever is stored. *)
Lemma getStoredUser_returns st : exists user, getStoredUser st = Ok user.
Proof.
  unfold getStoredUser. destruct (localStorage st !! userKey) as [s |]; eauto.
  destruct (negb (String.eqb s "")); eauto.
  unfold JSON_parse_call. destruct (JSON_parse s); simpl; eauto.
Qed.

Lemma isAdmin_returns st : exists answer, isAdmin st = Ok answer.
Proof.
  unfold isAdmin. destruct (getStoredUser_returns st) as [user E].
  rewrite E. simpl. eauto.
Qed.

(** C10: when the stored user record is not valid JSON, [getStoredUser]
    returns null and [isAdmin] false; constructing the service on that
    storage succeeds with no current user, and logging out removes the
    record. *)
Theorem corrupt_user_record_is_harmless (st : State) (record : string) :
  localStorage st !! userKey = Some record ->
  JSON_parse record = None ->
  getStoredUser st = Ok JNull
  /\ isAdmin st = Ok (JBool false)
  /\ create (localStorage st) = Ok (mkState (localStorage st) JNull)
  /\ getStoredUser (logout st) = Ok JNull
  /\ localStorage (logout st) !! userKey = None.
Proof.
  intros Hrec Hbad.
  assert (E : getStoredUser st = Ok JNull).
  { unfold getStoredUser. rewrite Hrec.
    destruct (negb (String.eqb record "")); [| reflexivity].
    unfold JSON_parse_call. rewrite Hbad. reflexivity. }
  assert (L : localStorage (logout st) !! userKey = None).
  { unfold logout. simpl. apply lookup_delete_eq. }
  repeat split.
  - exact E.
  - unfold isAdmin. rewrite E. reflexivity.
  - unfold create.
    change (getStoredUser (mkState (localStorage st) JNull))
      with (getStoredUser st).
    rewrite E. reflexivity.
  - unfold getStoredUser. rewrite L. reflexivity.
  - exact L.
Qed.

End StoredUser.

Definition corrupt_session : AuthService.State :=
  AuthService.mkState
    (<[AuthService.userKey := "{not json"]>
       (<[AuthService.tokenKey := "token-123"]> ∅))
    JNull.

Lemma corrupt_user_record_example :
  @AuthService.getStoredUser exampleHost corrupt_session = Ok JNull
  /\ @AuthService.isAdmin exampleHost corrupt_session = Ok (JBool false)
  /\ @AuthService.create exampleHost (AuthService.localStorage corrupt_session)
     = Ok (AuthService.mkState (AuthService.localStorage corrupt_session) JNull)
  /\ @AuthService.getStoredUser exampleHost (AuthService.logout corrupt_session)
     = Ok JNull
  /\ AuthService.localStorage (AuthService.logout corrupt_session)
       !! AuthService.userKey = None.
Proof.
  apply (@corrupt_user_record_is_harmless exampleHost corrupt_session
           "{not json"); reflexivity.
Defined.

(** * Further properties *)

(** ** The session *)

Section Session.
Import AuthService.
Context `{Host}.

(** X1: after [logout] nothing of the session is left: no token, no
    Authorization header, no stored or current user, no admin rights;
    every other key of the storage is as before. *)
Theorem logout_ends_session (st : State) :
  isAuthenticated (logout st) = false
  /\ getToken (logout st) = None
  /\ getAuthHeaders (logout st) = []
  /\ getStoredUser (logout st) = Ok JNull
  /\ isAdmin (logout st) = Ok (JBool false)
  /\ getCurrentUser (logout st) = JNull
  /\ (forall key, key <> tokenKey -> key <> userKey ->
        localStorage (logout st) !! key = localStorage st !! key).
Proof.
  assert (T : localStorage (logout st) !! tokenKey = None).
  { unfold logout. simpl. rewrite lookup_delete_ne by discriminate.
    apply lookup_delete_eq. }
  assert (U : localStorage (logout st) !! userKey = None).
  { unfold logout. simpl. apply lookup_delete_eq. }
  assert (S : getStoredUser (logout st) = Ok JNull).
  { unfold getStoredUser. now rewrite U. }
  repeat split.
  - unfold isAuthenticated, getToken. now rewrite T.
  - exact T.
  - unfold getAuthHeaders, getToken. now rewrite T.
  - exact S.
  - unfold isAdmin. now rewrite S.
  - intros key Ht Hu. unfold logout. simpl.
    rewrite lookup_delete_ne by congruence.
    now rewrite lookup_delete_ne by congruence.
Qed.

Lemma login_tap_token st response :
  getToken (login_tap st response) = Some (access_token response).
Proof.
  unfold getToken, login_tap. simpl.
  rewrite lookup_insert_ne by discriminate. apply lookup_insert_eq.
Qed.

(** X2: a login response with a non-empty token starts a session: the
    token is stored and sent as a Bearer header, the current user carries
    the response's admin flag and email, the stored record is the JSON
    text of the current user, and keys other than the two of the session
    are untouched. *)
Theorem login_starts_session (st : State) (response : LoginResponse) :
  access_token response <> "" ->
  let st' := login_tap st response in
  isAuthenticated st' = true
  /\ getToken st' = Some (access_token response)
  /\ getAuthHeaders st' = [("Authorization", "Bearer " +:+ access_token response)]
  /\ prop (getCurrentUser st') "isMaster" = JBool (is_master response)
  /\ (forall address, address <> "" -> response_email response = Some address ->
        prop (getCurrentUser st') "email" = JStr address)
  /\ (given (response_email response) = false ->
        prop (getCurrentUser st') "email" = JNull)
  /\ localStorage st' !! userKey = Some (JSON_stringify (getCurrentUser st'))
  /\ (forall key, key <> tokenKey -> key <> userKey ->
        localStorage st' !! key = localStorage st !! key).
Proof.
  intros Htoken st'. apply String.eqb_neq in Htoken.
  pose proof (login_tap_token st response) as T. fold st' in T.
  repeat split.
  - unfold isAuthenticated. rewrite T. simpl. now rewrite Htoken.
  - exact T.
  - unfold getAuthHeaders. rewrite T. now rewrite Htoken.
  - intros address Hne Hsome. unfold st', login_tap. simpl.
    rewrite Hsome. simpl. apply String.eqb_neq in Hne. now rewrite Hne.
  - intros Hnone. unfold st', login_tap. simpl. now rewrite Hnone.
  - unfold st', login_tap. simpl. apply lookup_insert_eq.
  - intros key Ht Hu. unfold st', login_tap. simpl.
    rewrite lookup_insert_ne by congruence.
    now rewrite lookup_insert_ne by congruence.
Qed.

(** X3: when the JSON text written for the user reads back as that
    user, the stored user after a login is the current user, [isAdmin] is
    the response's admin flag, a service constructed anew on the same
    storage starts with that user, and [isAdmin] is false again after
    [logout]. *)
Theorem admin_flag_survives_restart (st : State) (response : LoginResponse) :
  let st' := login_tap st response in
  let user := getCurrentUser st' in
  JSON_stringify user <> "" ->
  JSON_parse (JSON_stringify user) = Some user ->
  getStoredUser st' = Ok user
  /\ isAdmin st' = Ok (JBool (is_master response))
  /\ create (localStorage st') = Ok st'
  /\ isAdmin (logout st') = Ok (JBool false).
Proof.
  intros st' user Hne Hparse.
  assert (U : localStorage st' !! userKey = Some (JSON_stringify user)).
  { unfold st', login_tap. simpl. apply lookup_insert_eq. }
  assert (S : forall current,
             getStoredUser (mkState (localStorage st') current) = Ok user).
  { intros current. unfold getStoredUser. cbn [localStorage]. rewrite U.
    apply String.eqb_neq in Hne. rewrite Hne. cbn [negb].
    unfold JSON_parse_call. now rewrite Hparse. }
  assert (S' : getStoredUser st' = Ok user) by apply (S (currentUser st')).
  repeat split.
  - exact S'.
  - unfold isAdmin. rewrite S'. simpl.
    unfold user, st', login_tap, or_else. simpl.
    now destruct (is_master response).
  - unfold create. rewrite S. reflexivity.
  - apply logout_ends_session.
Qed.

End Session.

(** A host that writes a user record as a tag and reads the tag back. *)
Definition tagHost : Host := {|
  StringToNumber := fun _ => nan;
  ToString := fun _ => "";
  JSON_parse := fun s =>
    if String.eqb s "admin"
    then Some (JObj [("email", JNull); ("isMaster", JBool true)])
    else None;
  JSON_stringify := fun v =>
    if truthy (prop v "isMaster") then "admin" else "user";
  Date_new := fun _ => nan;
  Date_now := 0%float
|}.

Definition master_response : AuthService.LoginResponse :=
  AuthService.mkLoginResponse "token-123" "bearer" true None.

Lemma login_starts_session_example :
  let st' := @AuthService.login_tap exampleHost signed_out master_response in
  AuthService.isAuthenticated st' = true
  /\ AuthService.getToken st' = Some "token-123"
  /\ AuthService.getAuthHeaders st' = [("Authorization", "Bearer token-123")]
  /\ prop (AuthService.getCurrentUser st') "isMaster" = JBool true
  /\ (forall address, address <> "" -> None = Some address ->
        prop (AuthService.getCurrentUser st') "email" = JStr address)
  /\ (AuthService.given None = false ->
        prop (AuthService.getCurrentUser st') "email" = JNull)
  /\ AuthService.localStorage st' !! AuthService.userKey
     = Some (@JSON_stringify exampleHost (AuthService.getCurrentUser st'))
  /\ (forall key, key <> AuthService.tokenKey -> key <> AuthService.userKey ->
        AuthService.localStorage st' !! key
        = AuthService.localStorage signed_out !! key).
Proof.
  apply (@login_starts_session exampleHost signed_out master_response).
  discriminate.
Defined.

Lemma admin_flag_survives_restart_example :
  let st' := @AuthService.login_tap tagHost signed_out master_response in
  @AuthService.getStoredUser tagHost st'
  = Ok (JObj [("email", JNull); ("isMaster", JBool true)])
  /\ @AuthService.isAdmin tagHost st' = Ok (JBool true)
  /\ @AuthService.create tagHost (AuthService.localStorage st') = Ok st'
  /\ @AuthService.isAdmin tagHost (AuthService.logout st') = Ok (JBool false).
Proof.
  apply (@admin_flag_survives_restart tagHost signed_out master_response).
  - discriminate.
  - reflexivity.
Defined.

(** ** The token interceptor *)

Section Interceptor.
Import AuthService AppConfig.

Lemma filter_again {A} (f : A -> bool) (l : list A) :
  List.filter f (List.filter f l) = List.filter f l.
Proof.
  induction l as [| a l IH]; simpl; [reflexivity |].
  destruct (f a) eqn:E; simpl; [rewrite E, IH |]; auto.
Qed.

Lemma filter_none {A} (f : A -> bool) (l : list A) :
  List.filter f (List.filter (fun a => negb (f a)) l) = [].
Proof.
  induction l as [| a l IH]; simpl; [reflexivity |].
  destruct (f a) eqn:E; simpl; [| rewrite E]; auto.
Qed.

Lemma same_name_refl name : same_name name name = true.
Proof. apply String.eqb_refl. Qed.

Lemma setHeader_others name value hs :
  List.filter (fun h => negb (same_name (fst h) name)) (setHeader name value hs)
  = List.filter (fun h => negb (same_name (fst h) name)) hs.
Proof.
  induction hs as [| h hs IH]; simpl.
  - now rewrite same_name_refl.
  - destruct (same_name (fst h) name) eqn:E; simpl; rewrite E; simpl.
    + apply filter_again.
    + now rewrite IH.
Qed.

Lemma setHeader_one name value hs :
  exists spelt,
    List.filter (fun h => same_name (fst h) name) (setHeader name value hs)
    = [(spelt, value)].
Proof.
  induction hs as [| h hs [spelt IH]]; simpl.
  - exists name. now rewrite same_name_refl.
  - destruct (same_name (fst h) name) eqn:E; simpl; rewrite E.
    + exists (fst h). f_equal.
      apply (filter_none (fun h => same_name (fst h) name)).
    + now exists spelt.
Qed.

Lemma setHeader_twice name value hs :
  setHeader name value (setHeader name value hs) = setHeader name value hs.
Proof.
  induction hs as [| h hs IH]; simpl.
  - now rewrite same_name_refl.
  - destruct (same_name (fst h) name) eqn:E; simpl; rewrite E.
    + f_equal. apply filter_again.
    + now rewrite IH.
Qed.

(** X4: the interceptor never changes method, address or body.  Without
    a token the request passes unchanged.  With a token the request has
    exactly one header named Authorization in any spelling, with value
    "Bearer " and the token, and its other headers are kept in their
    order; a request that already carries the headers of
    [getAuthHeaders], as the admin page's requests do, passes unchanged,
    and intercepting twice is the same as once. *)
Theorem authInterceptor_attaches_token (st : State) (req : HttpRequest) :
  let req' := authInterceptor (localStorage st) req in
  let authorization (h : string * string) :=
    same_name (fst h) "Authorization" in
  method req' = method req /\ url req' = url req /\ body req' = body req
  /\ (isAuthenticated st = false -> req' = req)
  /\ (forall token, isAuthenticated st = true -> getToken st = Some token ->
        (exists spelt,
           List.filter authorization (headers req')
           = [(spelt, "Bearer " +:+ token)])
        /\ List.filter (fun h => negb (authorization h)) (headers req')
           = List.filter (fun h => negb (authorization h)) (headers req))
  /\ (headers req = getAuthHeaders st -> req' = req)
  /\ authInterceptor (localStorage st) req' = req'.
Proof.
  cbv zeta. unfold authInterceptor, isAuthenticated, getAuthHeaders, getToken.
  change tokenKey with "auth_token".
  destruct (localStorage st !! "auth_token") as [token |] eqn:E;
    cbn [given negb].
  2:{ repeat split; auto; discriminate. }
  destruct (String.eqb token "") eqn:Et; cbn [negb].
  { repeat split; auto; discriminate. }
  cbn [method url body headers].
  split; [reflexivity |]. split; [reflexivity |]. split; [reflexivity |].
  split; [discriminate |]. split; [| split].
  - intros token' _ Etoken. inversion Etoken; subst. split.
    + apply setHeader_one.
    + apply setHeader_others.
  - intros Hh. destruct req as [m u b hs]. cbn [headers] in *. subst hs.
    reflexivity.
  - f_equal. apply setHeader_twice.
Qed.

End Interceptor.

(** ** Result and image addresses *)

Section Addresses.
Import JsString.

Lemma append_cons c a b : String c a +:+ b = String c (a +:+ b).
Proof. reflexivity. Qed.

Lemma append_empty a : a +:+ "" = a.
Proof.
  induction a as [| c a IH]; [reflexivity |]. now rewrite append_cons, IH.
Qed.

Lemma length_append a b :
  String.length (a +:+ b) = (String.length a + String.length b)%nat.
Proof.
  induction a as [| c a IH]; [reflexivity |].
  rewrite append_cons. simpl. now rewrite IH.
Qed.

Lemma prefix_length a : forall b,
  String.prefix a b = true -> (String.length a <= String.length b)%nat.
Proof.
  induction a as [| c a IH]; intros [| d b]; simpl; intros E;
    try lia; try discriminate.
  destruct (Ascii.ascii_dec c d); [| discriminate].
  apply IH in E. lia.
Qed.

Lemma prefix_append a b : String.prefix a (a +:+ b) = true.
Proof.
  induction a as [| c a IH]; [now destruct b |].
  rewrite append_cons. simpl. now destruct (Ascii.ascii_dec c c).
Qed.

Lemma last_occurrence_short needle : forall hay,
  (String.length hay < String.length needle)%nat ->
  last_occurrence needle hay = None.
Proof.
  induction hay as [| c hay IH]; intros Hlen; cbn [last_occurrence].
  - destruct (String.prefix needle "") eqn:E; [| reflexivity].
    apply prefix_length in E. simpl in *. lia.
  - rewrite IH by (simpl in Hlen; lia).
    destruct (String.prefix needle (String c hay)) eqn:E; [| reflexivity].
    apply prefix_length in E. simpl in *. lia.
Qed.

Lemma last_occurrence_self needle :
  needle <> "" -> last_occurrence needle needle = Some O.
Proof.
  destruct needle as [| c rest]; [congruence |]. intros _.
  cbn [last_occurrence]. rewrite last_occurrence_short by (simpl; lia).
  pose proof (prefix_append (String c rest) "") as P.
  rewrite append_empty in P. now rewrite P.
Qed.

(** The last occurrence of a suffix is the one at the end. *)
Lemma last_occurrence_suffix needle : forall root,
  needle <> "" ->
  last_occurrence needle (root +:+ needle) = Some (String.length root).
Proof.
  induction root as [| c root IH]; intros Hne.
  - now apply last_occurrence_self.
  - rewrite append_cons. cbn [last_occurrence String.length]. now rewrite IH.
Qed.

Lemma substring_prefix a b :
  String.substring 0 (String.length a) (a +:+ b) = a.
Proof.
  induction a as [| c a IH]; [now destruct b |].
  rewrite append_cons. simpl. now rewrite IH.
Qed.

Lemma root_of_api root :
  substring_js (root +:+ "/api") 0 (lastIndexOf "/api" (root +:+ "/api")) = root.
Proof.
  unfold lastIndexOf. rewrite last_occurrence_suffix by discriminate.
  unfold substring_js. rewrite length_append. simpl String.length.
  replace (Z.min (Z.max 0 0) (Z.of_nat (String.length root + 4))) with 0 by lia.
  replace (Z.min (Z.max (Z.of_nat (String.length root)) 0)
                 (Z.of_nat (String.length root + 4)))
    with (Z.of_nat (String.length root)) by lia.
  replace (Z.min 0 (Z.of_nat (String.length root))) with 0 by lia.
  replace (Z.max 0 (Z.of_nat (String.length root)) - 0)
    with (Z.of_nat (String.length root)) by lia.
  rewrite Nat2Z.id. apply substring_prefix.
Qed.

Lemma root_without_api (address : string) :
  last_occurrence "/api" address = None ->
  substring_js address 0 (lastIndexOf "/api" address) = "".
Proof.
  intros E. unfold lastIndexOf. rewrite E. unfold substring_js.
  replace (Z.min (Z.max 0 0) (Z.of_nat (String.length address))) with 0 by lia.
  replace (Z.min (Z.max (-1) 0) (Z.of_nat (String.length address))) with 0 by lia.
  simpl. now destruct address.
Qed.

Context `{Environment}.

(** X5: when the API address is a server root followed by "/api", an
    address that starts with "http" is returned as it is by
    [getResultUrl] and [getFullUrl], any other one is appended to the
    server root, and [getFullUrl] of the empty address is empty. *)
Theorem addresses_resolve_against_server_root (root : string) :
  apiUrl = root +:+ "/api" ->
  GalleryService.getFullUrl "" = ""
  /\ (forall address, startsWith "http" address = true ->
        StyleTransferService.getResultUrl address = address
        /\ GalleryService.getFullUrl address = address)
  /\ (forall address, startsWith "http" address = false ->
        StyleTransferService.getResultUrl address = root +:+ address
        /\ (address = "" \/ GalleryService.getFullUrl address = root +:+ address)).
Proof.
  intros Hapi.
  assert (R : StyleTransferService.serverRoot = root).
  { unfold StyleTransferService.serverRoot. rewrite Hapi. apply root_of_api. }
  assert (B : GalleryService.baseUrl = root).
  { unfold GalleryService.baseUrl. rewrite Hapi. apply root_of_api. }
  split; [reflexivity |]. split.
  - intros address Hp.
    unfold StyleTransferService.getResultUrl, GalleryService.getFullUrl.
    rewrite Hp. split; [reflexivity |].
    destruct address; [discriminate | reflexivity].
  - intros address Hp.
    unfold StyleTransferService.getResultUrl, GalleryService.getFullUrl.
    rewrite Hp, R, B. split; [reflexivity |].
    destruct address; [now left | now right].
Qed.

(** X6: when the API address contains no "/api" the server root is
    empty, and both functions return every non-empty address unchanged. *)
Theorem addresses_unchanged_without_api_segment (address : string) :
  last_occurrence "/api" apiUrl = None ->
  StyleTransferService.getResultUrl address = address
  /\ GalleryService.getFullUrl address = address.
Proof.
  intros Hnone.
  unfold StyleTransferService.getResultUrl, GalleryService.getFullUrl,
    StyleTransferService.serverRoot, GalleryService.baseUrl.
  rewrite (root_without_api apiUrl Hnone).
  destruct (startsWith "http" address); split; try reflexivity.
  - now destruct address.
  - now destruct address.
Qed.

End Addresses.

Lemma addresses_resolve_example :
  @GalleryService.getFullUrl exampleEnvironment "" = ""
  /\ (forall address, JsString.startsWith "http" address = true ->
        @StyleTransferService.getResultUrl exampleEnvironment address = address
        /\ @GalleryService.getFullUrl exampleEnvironment address = address)
  /\ (forall address, JsString.startsWith "http" address = false ->
        @StyleTransferService.getResultUrl exampleEnvironment address
        = "http://localhost:8000" +:+ address
        /\ (address = ""
            \/ @GalleryService.getFullUrl exampleEnvironment address
               = "http://localhost:8000" +:+ address)).
Proof.
  apply (@addresses_resolve_against_server_root exampleEnvironment
           "http://localhost:8000").
  reflexivity.
Defined.

Definition bareEnvironment : Environment :=
  {| apiUrl := "http://localhost:8000" |}.

Lemma addresses_unchanged_example :
  @StyleTransferService.getResultUrl bareEnvironment "/results/job-1.png"
  = "/results/job-1.png"
  /\ @GalleryService.getFullUrl bareEnvironment "/results/job-1.png"
     = "/results/job-1.png".
Proof.
  apply (@addresses_unchanged_without_api_segment bareEnvironment
           "/results/job-1.png").
  reflexivity.
Defined.

Example result_address_examples :
  @StyleTransferService.getResultUrl exampleEnvironment "/results/job-1.png"
  = "http://localhost:8000/results/job-1.png"
  /\ @StyleTransferService.getResultUrl exampleEnvironment
       "https://cdn.example.org/r.png"
     = "https://cdn.example.org/r.png"
  /\ @StyleTransferService.getResultUrl
       {| apiUrl := "http://host/api/v2/api" |} "/r.png"
     = "http://host/api/v2/r.png".
Proof. vm_compute. repeat split. Qed.

(** ** The shape of formatted values *)

Section Decimals.
Context `{Host}.

(** [s] is an optional minus sign, at least one character, a point and
    exactly [f] characters. *)
Definition fixed_point (f : nat) (s : string) : Prop :=
  exists sign whole fraction,
    s = sign +:+ whole +:+ "." +:+ fraction
    /\ (sign = "" \/ sign = "-")
    /\ (1 <= String.length whole)%nat
    /\ String.length fraction = f.

Lemma substring_length : forall n m s,
  (n + m <= String.length s)%nat ->
  String.length (String.substring n m s) = m.
Proof.
  induction n as [| n IHn].
  - induction m as [| m IHm]; intros s Hlen.
    + now destruct s.
    + destruct s as [| c s]; simpl in *; [lia |].
      rewrite IHm by lia. reflexivity.
  - intros m s Hlen. destruct s as [| c s]; simpl in *; [lia |].
    apply IHn. lia.
Qed.

Lemma zeros_length k : String.length (zeros k) = k.
Proof. induction k as [| k IH]; simpl; congruence. Qed.

Lemma decimal_not_empty n : (1 <= String.length (decimal n))%nat.
Proof.
  unfold decimal. destruct (N.to_uint (Z.to_N n)); simpl; lia.
Qed.

Lemma place_point_fixed digits f :
  (0 < f)%nat -> (1 <= String.length digits)%nat ->
  exists whole fraction,
    place_point digits f = whole +:+ "." +:+ fraction
    /\ (1 <= String.length whole)%nat
    /\ String.length fraction = f.
Proof.
  intros Hf Hd. unfold place_point. destruct f as [| f']; [lia |].
  set (f := S f') in *.
  set (m := if (String.length digits <=? f)%nat
            then zeros (f + 1 - String.length digits) +:+ digits else digits).
  assert (Hm : (f + 1 <= String.length m)%nat).
  { unfold m. destruct (String.length digits <=? f)%nat eqn:E.
    - apply Nat.leb_le in E. rewrite length_append, zeros_length. lia.
    - apply Nat.leb_gt in E. lia. }
  eexists _, _. split; [reflexivity |]. split.
  - rewrite substring_length by lia. lia.
  - apply substring_length. lia.
Qed.

Lemma toFixed_fixed x f :
  PrimFloat.leb 1e21 (PrimFloat.abs x) = false -> (0 < f)%nat ->
  fixed_point f (toFixed x f).
Proof.
  intros Hbig Hf. unfold toFixed. rewrite Hbig.
  destruct (Prim2SF x) as [s | s | | s m e].
  1-3: destruct (place_point_fixed "0" f Hf ltac:(simpl; lia))
         as (whole & fraction & E & Hw & Hfr);
       exists "", whole, fraction; rewrite E; auto.
  destruct (place_point_fixed (decimal (scaled_round m e f)) f Hf
              (decimal_not_empty _)) as (whole & fraction & E & Hw & Hfr).
  exists (if s then "-" else ""), whole, fraction. rewrite E.
  repeat split; auto. destruct s; auto.
Qed.

(** X7: a finite value is shown with one decimal and the suffix "M"
    from one million on, with one decimal and "K" from one thousand on,
    and with exactly two decimals below, as long as the number given to
    [toFixed] is below 1e21 in magnitude. *)
Theorem formatValue_decimals (x : float) :
  isFinite x = true ->
  (PrimFloat.leb 1000000 x = true ->
     PrimFloat.leb 1e21 (PrimFloat.abs (x / 1000000)) = false ->
     exists t, formatValue (JNum x) = t +:+ "M" /\ fixed_point 1 t)
  /\ (PrimFloat.leb 1000000 x = false -> PrimFloat.leb 1000 x = true ->
        PrimFloat.leb 1e21 (PrimFloat.abs (x / 1000)) = false ->
        exists t, formatValue (JNum x) = t +:+ "K" /\ fixed_point 1 t)
  /\ (PrimFloat.leb 1000000 x = false -> PrimFloat.leb 1000 x = false ->
        PrimFloat.leb 1e21 (PrimFloat.abs x) = false ->
        fixed_point 2 (formatValue (JNum x))).
Proof.
  intros Hfin. unfold formatValue. rewrite Hfin. cbn [negb].
  split; [| split].
  - intros HM Hbig. rewrite HM. eexists. split; [reflexivity |].
    apply toFixed_fixed; [exact Hbig | lia].
  - intros HM HK Hbig. rewrite HM, HK. eexists. split; [reflexivity |].
    apply toFixed_fixed; [exact Hbig | lia].
  - intros HM HK Hbig. rewrite HM, HK.
    apply toFixed_fixed; [exact Hbig | lia].
Qed.

End Decimals.

Lemma formatValue_decimals_example :
  (PrimFloat.leb 1000000 2500 = true ->
     PrimFloat.leb 1e21 (PrimFloat.abs (2500 / 1000000)) = false ->
     exists t, @formatValue exampleHost (JNum 2500) = t +:+ "M"
               /\ fixed_point 1 t)
  /\ (PrimFloat.leb 1000000 2500 = false -> PrimFloat.leb 1000 2500 = true ->
        PrimFloat.leb 1e21 (PrimFloat.abs (2500 / 1000)) = false ->
        exists t, @formatValue exampleHost (JNum 2500) = t +:+ "K"
                  /\ fixed_point 1 t)
  /\ (PrimFloat.leb 1000000 2500 = false -> PrimFloat.leb 1000 2500 = false ->
        PrimFloat.leb 1e21 (PrimFloat.abs 2500) = false ->
        fixed_point 2 (@formatValue exampleHost (JNum 2500))).
Proof.
  apply (@formatValue_decimals exampleHost 2500). reflexivity.
Defined.

(** ** The gallery page over time *)

Section GalleryRun.
Import GalleryPage.
Context `{WeightPresetService} `{Environment}.

(** What can happen to the page: the answers to its requests and the
    user's actions. *)
Inductive Action : Type :=
| Loaded (items : list Item)
| LoadFailed (error : Error)
| SortChosen (option : string)
| FilterChosen (preset : string)
| FiltersCleared
| DeleteClicked (auth : AuthService.State) (confirmed : bool) (id : string)
| Deleted (id : string)
| DeleteFailed (error : Error)
| ModalClosed.

(** The component after an action.  A TypeError that leaves a handler
    is reported by the framework and the page stays in use, with the
    fields as the handler left them. *)
Definition act (st : State) (a : Action) : State :=
  match a with
  | Loaded items => state_after (loadGalleryItems_next st items)
  | LoadFailed error => loadGalleryItems_error st error
  | SortChosen option => state_after (sortBy st option)
  | FilterChosen preset => state_after (filterByPreset st preset)
  | FiltersCleared => state_after (clearFilters st)
  | DeleteClicked auth confirmed id => fst (deleteItem auth confirmed st id)
  | Deleted id => state_after (deleteItem_next st id)
  | DeleteFailed error => deleteItem_error st error
  | ModalClosed => closeAuthModal st
  end.

(** The recomputation touches the view only. *)
Lemma applySortingAndFilters_frame st :
  let after := state_after (applySortingAndFilters st) in
  allGalleryItems after = allGalleryItems st
  /\ sortOption after = sortOption st
  /\ activePresetFilter after = activePresetFilter st
  /\ showAuthModal after = showAuthModal st
  /\ alerts after = alerts st.
Proof.
  unfold applySortingAndFilters.
  destruct (if String.eqb (activePresetFilter st) "all" then _ else _)
    as [filtered |]; [| repeat split].
  destruct (Array_sort _ filtered); repeat split.
Qed.

(** On a collection of full items the view is the documented one. *)
Definition in_step (st : State) : Prop :=
  forall gs, allGalleryItems st = map Full gs ->
    filteredItems st
    = map Full (documented_view (sortOption st) (activePresetFilter st) gs).

Lemma applySortingAndFilters_in_step st :
  in_step (state_after (applySortingAndFilters st)).
Proof.
  intros gs E.
  destruct (applySortingAndFilters_frame st) as (A & S & F & _).
  cbv zeta in A, S, F. rewrite A in E. rewrite S, F.
  destruct st as [base shown sortKey filterKey modal notes].
  cbn [allGalleryItems sortOption activePresetFilter] in *. subst base.
  now rewrite applySortingAndFilters_full.
Qed.

Lemma act_in_step st a : in_step st -> in_step (act st a).
Proof.
  intros Hst. destruct a; cbn [act];
    try apply applySortingAndFilters_in_step; try exact Hst.
  - unfold deleteItem.
    destruct (AuthService.isAuthenticated auth); cbn [negb fst];
      [destruct confirmed |]; exact Hst.
  - unfold deleteItem_error.
    destruct (includes "Authentication required" error); exact Hst.
Qed.

Lemma run_in_step actions : forall st,
  in_step st -> in_step (fold_left act actions st).
Proof.
  induction actions as [| a actions IH]; intros st Hst; [exact Hst |].
  apply IH. now apply act_in_step.
Qed.

(** X8: after any sequence of answers and user actions on a freshly
    opened page, whenever the collection holds full items only, the view
    holds exactly the items of the collection that pass the current
    filter, each as often as in the collection, in the documented order
    where no sort key is NaN. *)
Theorem view_follows_collection
    (actions : list Action) (gs : list GalleryItem) :
  let st := fold_left act actions opened in
  allGalleryItems st = map Full gs ->
  exists listed,
    filteredItems st = map Full listed
    /\ (forall item,
          In item listed
          <-> In item gs
              /\ (activePresetFilter st = "all"
                  \/ classified item = activePresetFilter st))
    /\ Permutation listed
         (List.filter (documented_filter (activePresetFilter st)) gs)
    /\ (length (filteredItems st) <= length (allGalleryItems st))%nat
    /\ ((forall item, In item gs ->
           PrimFloat.is_nan (documented_key (sortOption st) item) = false) ->
        listed = documented_view (sortOption st) (activePresetFilter st) gs).
Proof.
  intros st E.
  assert (U : in_step st).
  { apply run_in_step. intros [| g gs'] E'; [reflexivity | discriminate]. }
  exists (documented_view (sortOption st) (activePresetFilter st) gs).
  split; [now apply U |].
  split; [intros item; apply documented_view_In |].
  split; [apply documented_view_perm |].
  split; [| reflexivity].
  rewrite (U gs E), E, !length_map, (Permutation_length (documented_view_perm _ _ _)).
  apply filter_length_le.
Qed.

Lemma filter_filter {A} (f g : A -> bool) l :
  List.filter f (List.filter g l) = List.filter (fun x => g x && f x) l.
Proof.
  induction l as [| x l IH]; simpl; [reflexivity |].
  destruct (g x); simpl; [destruct (f x) |]; now rewrite IH.
Qed.

(** The page determined by a collection, the settings and, where the
    recomputation throws before it assigns the view, the view shown. *)
Definition rebuilt (items : list Item) (st : State) : Outcome :=
  applySortingAndFilters
    (mkState items (filteredItems st) (sortOption st) (activePresetFilter st)
             (showAuthModal st) (alerts st)).

Definition without (id : string) (items : list Item) : list Item :=
  List.filter (id_differs id) items.

Lemma deleteItem_next_rebuilt st id :
  deleteItem_next st id = rebuilt (without id (allGalleryItems st)) st.
Proof. reflexivity. Qed.

Lemma rebuilt_base items st :
  allGalleryItems (state_after (rebuilt items st)) = items.
Proof. apply (applySortingAndFilters_frame (mkState items _ _ _ _ _)). Qed.

(** The filter callback throws exactly on a collection with an empty
    object. *)
Lemma Array_filter_throws key : forall l,
  Array_filter (passes key) l = None <-> In Bare l.
Proof.
  induction l as [| x l IH]; cbn [Array_filter In].
  - split; [discriminate | tauto].
  - destruct x as [| g]; cbn [passes]; [split; auto |].
    destruct (Array_filter (passes key) l) as [kept |].
    + split; [discriminate |]. intros [E | Hin]; [discriminate |].
      now apply IH in Hin.
    + split; [| reflexivity]. intros _. right. now apply IH.
Qed.

Lemma rebuilt_rebuilt items items' st :
  (In Bare items -> In Bare items') ->
  rebuilt items (state_after (rebuilt items' st)) = rebuilt items st.
Proof.
  intros Hbare. unfold rebuilt.
  set (inner := mkState items' (filteredItems st) (sortOption st)
                        (activePresetFilter st) (showAuthModal st) (alerts st)).
  destruct (applySortingAndFilters_frame inner) as (_ & -> & -> & -> & ->).
  cbn [inner sortOption activePresetFilter showAuthModal alerts].
  unfold applySortingAndFilters at 1 3.
  cbn [allGalleryItems filteredItems sortOption activePresetFilter
       showAuthModal alerts].
  destruct (String.eqb (activePresetFilter st) "all") eqn:Ef; [reflexivity |].
  destruct (Array_filter (passes (activePresetFilter st)) items) eqn:E;
    [reflexivity |].
  apply Array_filter_throws, Hbare in E.
  apply (Array_filter_throws (activePresetFilter st)) in E.
  unfold applySortingAndFilters, inner.
  cbn [allGalleryItems filteredItems sortOption activePresetFilter
       showAuthModal alerts].
  now rewrite Ef, E.
Qed.

Lemma without_without a b items :
  without a (without b items) = without b (without a items).
Proof.
  unfold without. rewrite !filter_filter. apply filter_ext.
  intros x. apply andb_comm.
Qed.

Lemma without_twice a items : without a (without a items) = without a items.
Proof.
  unfold without. rewrite filter_filter. apply filter_ext.
  intros x. apply andb_diag.
Qed.

Lemma without_Bare a items : In Bare (without a items) -> In Bare items.
Proof. unfold without. rewrite filter_In. tauto. Qed.

(** X9: a successful delete of an id that no item has leaves the
    collection as it is; deleting the same id again changes nothing, and
    two deletes give the same page in either order.  Sort option, filter,
    dialog flag and alerts are never touched. *)
Theorem delete_is_idempotent_and_commutes (st : State) (a b : string) :
  deleteItem_next (state_after (deleteItem_next st a)) a = deleteItem_next st a
  /\ deleteItem_next (state_after (deleteItem_next st a)) b
     = deleteItem_next (state_after (deleteItem_next st b)) a
  /\ ((forall item, In (Full item) (allGalleryItems st) ->
         GalleryModel.id item <> a) ->
      allGalleryItems (state_after (deleteItem_next st a)) = allGalleryItems st)
  /\ (length (allGalleryItems (state_after (deleteItem_next st a)))
      <= length (allGalleryItems st))%nat
  /\ sortOption (state_after (deleteItem_next st a)) = sortOption st
  /\ activePresetFilter (state_after (deleteItem_next st a))
     = activePresetFilter st
  /\ showAuthModal (state_after (deleteItem_next st a)) = showAuthModal st
  /\ alerts (state_after (deleteItem_next st a)) = alerts st.
Proof.
  split; [| split; [| split; [| split]]].
  - rewrite !deleteItem_next_rebuilt, rebuilt_base, without_twice.
    now apply rebuilt_rebuilt.
  - rewrite !deleteItem_next_rebuilt, !rebuilt_base.
    rewrite !rebuilt_rebuilt by apply without_Bare.
    now rewrite without_without.
  - intros Habsent. rewrite deleteItem_next_rebuilt, rebuilt_base.
    unfold without.
    induction (allGalleryItems st) as [| x l IH]; simpl; [reflexivity |].
    assert (E : id_differs a x = true).
    { destruct x as [| g]; [reflexivity |]. cbn [id_differs].
      apply negb_true_iff, String.eqb_neq, Habsent. now left. }
    rewrite E. f_equal. apply IH. intros item Hin.
    apply Habsent. now right.
  - rewrite deleteItem_next_rebuilt, rebuilt_base.
    apply filter_length_le.
  - rewrite deleteItem_next_rebuilt. unfold rebuilt.
    destruct (applySortingAndFilters_frame
                (mkState (without a (allGalleryItems st)) (filteredItems st)
                         (sortOption st) (activePresetFilter st)
                         (showAuthModal st) (alerts st)))
      as (_ & S & F & M & N).
    repeat split; assumption.
Qed.

End GalleryRun.

(** ** Failed deletes *)

Section DeleteFailures.
Import GalleryPage.

Lemma prefix_split needle : forall hay,
  String.prefix needle hay = true <-> exists rest, hay = needle +:+ rest.
Proof.
  induction needle as [| c needle IH]; intros hay.
  - split; [intros _; now exists hay | now destruct hay].
  - destruct hay as [| d hay]; simpl.
    + split; [discriminate | intros [rest E]; discriminate].
    + destruct (Ascii.ascii_dec c d) as [-> | Hne].
      * rewrite IH. split; intros [rest E]; exists rest.
        -- now rewrite append_cons, E.
        -- rewrite append_cons in E. now inversion E.
      * split; [discriminate |]. intros [rest E].
        rewrite append_cons in E. congruence.
Qed.

(** [includes] finds the phrase anywhere in the message. *)
Lemma includes_spec needle : forall hay,
  includes needle hay = true
  <-> exists before rest, hay = before +:+ needle +:+ rest.
Proof.
  induction hay as [| c hay IH]; cbn [includes].
  - rewrite orb_false_r, prefix_split. split.
    + intros [rest E]. now exists "", rest.
    + intros (before & rest & E). destruct before as [| d before].
      * now exists rest.
      * rewrite append_cons in E. discriminate.
  - rewrite orb_true_iff, prefix_split, IH. split.
    + intros [[rest E] | (before & rest & E)].
      * now exists "", rest.
      * exists (String c before), rest. now rewrite append_cons, E.
    + intros (before & rest & E). destruct before as [| d before].
      * left. now exists rest.
      * right. rewrite append_cons in E. inversion E. now exists before, rest.
Qed.

(** X10: a failed delete never changes the collection or the view.  It
    opens the sign-in dialog, and shows no alert, exactly when the error
    message contains "Authentication required" somewhere; otherwise it
    shows one alert, "Failed to delete item: " followed by the message
    (or by "Unknown error" for an empty message), and leaves the dialog
    flag as it was. *)
Theorem failed_delete_opens_dialog_or_alerts (st : State) (error : Error) :
  allGalleryItems (deleteItem_error st error) = allGalleryItems st
  /\ filteredItems (deleteItem_error st error) = filteredItems st
  /\ ((exists before rest,
         error = before +:+ "Authentication required" +:+ rest) ->
      showAuthModal (deleteItem_error st error) = true
      /\ alerts (deleteItem_error st error) = alerts st)
  /\ (~ (exists before rest,
           error = before +:+ "Authentication required" +:+ rest) ->
      showAuthModal (deleteItem_error st error) = showAuthModal st
      /\ alerts (deleteItem_error st error)
         = alerts st ++ ["Failed to delete item: "
                           +:+ (if String.eqb error "" then "Unknown error"
                                else error)]).
Proof.
  unfold deleteItem_error.
  destruct (includes "Authentication required" error) eqn:E.
  - apply includes_spec in E.
    split; [reflexivity |]. split; [reflexivity |]. split.
    + intros _. split; reflexivity.
    + intros Hno. contradiction.
  - split; [reflexivity |]. split; [reflexivity |]. split.
    + intros Hyes. apply includes_spec in Hyes. congruence.
    + intros _. split; [reflexivity |]. simpl.
      now destruct (String.eqb error "").
Qed.

End DeleteFailures.

(** ** Which failures ask for a sign-in *)

Section SignInFailures.
Context `{Host}.

(** X11: [transferStyle] and [deleteGalleryItem] fail with the
    "Authentication required" error for a 401 and for no other status. *)
Theorem AuthRequired_exactly_on_401 (error : HttpErrorResponse) :
  (StyleTransferService.transferStyle_catchError error = AuthRequired
   <-> status error = 401)
  /\ (GalleryService.deleteGalleryItem_catchError error = AuthRequired
      <-> status error = 401).
Proof.
  unfold StyleTransferService.transferStyle_catchError,
    GalleryService.deleteGalleryItem_catchError, GalleryService.handleError.
  destruct (status error =? 401) eqn:E.
  - apply Z.eqb_eq in E. split; split; auto.
  - apply Z.eqb_neq in E. split; split; try contradiction.
    + rewrite append_cons. discriminate.
    + destruct (error_event error); rewrite append_cons; discriminate.
Qed.


End SignInFailures.

(** ** More on the polling loop *)

Section PollingRun.
Import StyleTransferService.
Context `{Environment}.

Definition ticks (evs : list Event) : nat :=
  length (List.filter (fun ev => match ev with Tick => true | _ => false end) evs).

(** What every reachable state of the loop satisfies. *)
Definition well_formed (jobId : string) (p : Polling) : Prop :=
  poll_jobId p = jobId
  /\ Forall (fun request => request = getJobStatus jobId) (sent p)
  /\ (active p = false -> inner p = None).

Lemma step_well_formed jobId p ev :
  well_formed jobId p -> well_formed jobId (step p ev).
Proof.
  intros (Hid & Hsent & Hin). unfold step.
  destruct (active p) eqn:Ha; cbn [negb]; [| repeat split; auto].
  destruct ev as [| r response | r error |].
  - split; [exact Hid |]. split; [| discriminate]. simpl.
    apply Forall_app. split; [exact Hsent |]. constructor; [| constructor].
    rewrite Hid. reflexivity.
  - destruct (is_inner p r); [| repeat split; auto; congruence].
    destruct (still_running (getJobStatus_map response));
      (split; [exact Hid |]; split; [exact Hsent | intros _; reflexivity]).
  - destruct (is_inner p r); [| repeat split; auto; congruence].
    split; [exact Hid |]. split; [exact Hsent | intros _; reflexivity].
  - split; [exact Hid |]. split; [exact Hsent | intros _; reflexivity].
Qed.

Lemma run_well_formed jobId evs : forall p,
  well_formed jobId p -> well_formed jobId (run p evs).
Proof.
  induction evs as [| ev evs IH]; intros p Hp; [exact Hp |].
  apply (IH (step p ev)). now apply step_well_formed.
Qed.

Lemma pollJobStatus_well_formed jobId interval evs :
  well_formed jobId (run (pollJobStatus jobId interval) evs).
Proof.
  apply run_well_formed. split; [reflexivity |].
  split; [constructor | discriminate].
Qed.

Lemma step_sent_length p ev :
  (length (sent (step p ev))
   <= length (sent p) + ticks [ev])%nat.
Proof.
  unfold step. destruct (active p); cbn [negb]; [| lia].
  destruct ev as [| r response | r error |].
  - cbn [sent]. rewrite length_app. unfold ticks. simpl. lia.
  - destruct (is_inner p r); [| lia].
    destruct (still_running (getJobStatus_map response)); cbn [sent]; lia.
  - destruct (is_inner p r); cbn [sent]; lia.
  - cbn [sent]. lia.
Qed.

Lemma ticks_cons ev evs : ticks (ev :: evs) = (ticks [ev] + ticks evs)%nat.
Proof. unfold ticks. simpl. now destruct ev. Qed.

Lemma run_sent_length evs : forall p,
  (length (sent (run p evs)) <= length (sent p) + ticks evs)%nat.
Proof.
  induction evs as [| ev evs IH]; intros p; [simpl; lia |].
  specialize (IH (step p ev)). pose proof (step_sent_length p ev) as S.
  change (run p (ev :: evs)) with (run (step p ev) evs).
  rewrite ticks_cons. lia.
Qed.

(** X13: whatever happens, every request the loop sends is the GET of
    the status of its own job, the loop sends at most one request per tick
    of the timer, and a loop that has stopped has no request in flight. *)
Theorem polling_requests_only_its_job
    (jobId : string) (interval : option Z) (evs : list Event) :
  let p := run (pollJobStatus jobId interval) evs in
  Forall (fun request =>
            request = mkRequest GET (apiUrl +:+ "/transfer/" +:+ jobId) NoBody [])
         (sent p)
  /\ (length (sent p) <= ticks evs)%nat
  /\ (active p = false -> in_flight p = []).
Proof.
  intros p.
  destruct (pollJobStatus_well_formed jobId interval evs) as (_ & Hsent & Hin).
  split; [exact Hsent |]. split.
  - pose proof (run_sent_length evs (pollJobStatus jobId interval)) as L.
    simpl in L. exact L.
  - intros Ha. unfold in_flight, pending_request. fold p in Hin.
    now rewrite (Hin Ha).
Qed.

(** X14: on every sequence of events the subscriber receives jobs that
    are 'pending' or 'processing', then possibly one last notification
    pair: a job with any other status followed by the completion, or one
    error; after either the loop is stopped. *)
Theorem notifications_end_with_one_terminal
    (jobId : string) (interval : option Z) (evs : list Event) :
  let p := run (pollJobStatus jobId interval) evs in
  exists jobs,
    Forall (fun job => job_status job = "pending"
                       \/ job_status job = "processing") jobs
    /\ (emitted p = map Next jobs
        \/ (active p = false
            /\ exists final,
                 job_status final <> "pending"
                 /\ job_status final <> "processing"
                 /\ emitted p = map Next jobs ++ [Next final; Complete])
        \/ (active p = false
            /\ exists e, emitted p = map Next jobs ++ [Err e])).
Proof.
  intros p. pose proof (pollJobStatus_emission jobId interval evs) as E.
  cbv zeta in E. fold p in E.
  assert (R : forall jobs,
             Forall (fun job => still_running job = true) jobs ->
             Forall (fun job => job_status job = "pending"
                                \/ job_status job = "processing") jobs).
  { intros jobs HF.
    induction HF as [| job jobs Hrun _ IH]; constructor; [| exact IH].
    unfold still_running in Hrun. apply orb_true_iff in Hrun.
    destruct Hrun as [E1 | E1]; apply String.eqb_eq in E1; auto. }
  inversion E as [armed jobs Hjobs | jobs final Hjobs Hfinal
                  | jobs e Hjobs]; subst; exists jobs.
  - split; [now apply R |]. now left.
  - split; [now apply R |]. right. left. split; [reflexivity |].
    exists final. unfold still_running in Hfinal.
    apply orb_false_iff in Hfinal. destruct Hfinal as [F1 F2].
    apply String.eqb_neq in F1, F2. auto.
  - split; [now apply R |]. right. right. split; [reflexivity |].
    now exists e.
Qed.

(** X15: once the subscriber has unsubscribed, as [ngOnDestroy] does
    for every polling subscription, nothing more is delivered and no
    request is sent, whatever arrives later; the request in flight is
    aborted. *)
Theorem unsubscribed_polling_is_silent
    (jobId : string) (interval : option Z) (evs later : list Event) :
  let p := run (pollJobStatus jobId interval) evs in
  let q := run p (Unsubscribe :: later) in
  emitted q = emitted p
  /\ sent q = sent p
  /\ active q = false
  /\ in_flight q = []
  /\ (active p = true -> aborted q = aborted p ++ in_flight p)
  /\ StyleTransferPage.ngOnDestroy [p] = [step p Unsubscribe].
Proof.
  intros p q.
  destruct (pollJobStatus_well_formed jobId interval evs) as (_ & _ & Hin).
  fold p in Hin.
  assert (S : active (step p Unsubscribe) = false
              /\ emitted (step p Unsubscribe) = emitted p
              /\ sent (step p Unsubscribe) = sent p
              /\ inner (step p Unsubscribe) = None
              /\ (active p = true ->
                  aborted (step p Unsubscribe) = aborted p ++ in_flight p)).
  { unfold step. destruct (active p) eqn:Ha; cbn [negb]; simpl.
    - repeat split.
    - repeat split; auto. discriminate. }
  destruct S as (S1 & S2 & S3 & S4 & S5).
  assert (Q : q = step p Unsubscribe).
  { unfold q. change (run p (Unsubscribe :: later))
      with (run (step p Unsubscribe) later).
    now apply run_stopped. }
  rewrite Q. repeat split; auto.
  unfold in_flight, pending_request. now rewrite S4.
Qed.

(** The run of C1's timeline, for use below. *)
Lemma run_timeline_terminal p0 answers final later :
  active p0 = true -> sent p0 = [] -> emitted p0 = [] ->
  Forall unfinished answers ->
  terminal final ->
  let p := run p0 (timeline 0 (answers ++ [Some final]) ++ later) in
  emitted p
  = map Next (observed answers) ++ [Next (getJobStatus_map final); Complete]
  /\ length (sent p) = S (length answers).
Proof.
  intros Hact Hsent Hem Hall Hfinal.
  pose proof (run_unfinished answers p0 Hact Hall) as HR.
  rewrite Hsent, Hem in HR. simpl in HR.
  rewrite <- run_app, timeline_app, <- run_app.
  set (p1 := run p0 (timeline 0 answers)) in *.
  destruct HR as (A1 & A2 & A3 & A4).
  change (timeline (0 + length answers) [Some final])
    with [Tick; Response (length answers) final].
  assert (E : run p1 [Tick; Response (length answers) final]
              = mkPolling (poll_jobId p1) (pollInterval p1) false
                  (sent p1 ++ [getJobStatus (poll_jobId p1)]) None
                  (aborted p1 ++ pending_request p1)
                  (emitted p1 ++ [Next (getJobStatus_map final); Complete])).
  { change (run p1 [Tick; Response (length answers) final])
      with (step (step p1 Tick) (Response (length answers) final)).
    unfold step at 2. rewrite A1. cbn [negb].
    unfold step. cbn [active negb]. rewrite <- A3, is_inner_fresh.
    rewrite (terminal_stops final Hfinal). reflexivity. }
  rewrite E, run_stopped by reflexivity. cbn [emitted sent].
  split; [now rewrite A4 |]. rewrite length_app, A3. simpl. lia.
Qed.

(** The same timeline ended by a transport failure of the last
    request. *)
Lemma run_timeline_failure p0 answers error later :
  active p0 = true -> sent p0 = [] -> emitted p0 = [] ->
  Forall unfinished answers ->
  let p := run p0 (timeline 0 answers
                   ++ [Tick; Failure (length answers) error] ++ later) in
  emitted p
  = map Next (observed answers) ++ [Err (getJobStatus_catchError error)]
  /\ length (sent p) = S (length answers)
  /\ active p = false.
Proof.
  intros Hact Hsent Hem Hall.
  pose proof (run_unfinished answers p0 Hact Hall) as HR.
  rewrite Hsent, Hem in HR. simpl in HR.
  rewrite <- run_app, <- run_app.
  set (p1 := run p0 (timeline 0 answers)) in *.
  destruct HR as (A1 & A2 & A3 & A4).
  assert (E : run p1 [Tick; Failure (length answers) error]
              = mkPolling (poll_jobId p1) (pollInterval p1) false
                  (sent p1 ++ [getJobStatus (poll_jobId p1)]) None
                  (aborted p1 ++ pending_request p1)
                  (emitted p1 ++ [Err (getJobStatus_catchError error)])).
  { change (run p1 [Tick; Failure (length answers) error])
      with (step (step p1 Tick) (Failure (length answers) error)).
    unfold step at 2. rewrite A1. cbn [negb].
    unfold step. cbn [active negb]. rewrite <- A3, is_inner_fresh.
    reflexivity. }
  rewrite E, run_stopped by reflexivity. cbn [emitted sent active].
  split; [now rewrite A4 |]. split; [| reflexivity].
  rewrite length_app, A3. simpl. lia.
Qed.

End PollingRun.

(** ** Tracking a job on the page *)

Section Tracking.
Import StyleTransferService StyleTransferPage.
Context `{Host} `{Environment}.

(** The page after the subscriber has handled all notifications. *)
Definition delivered (st : State) (p : Polling) : State :=
  fold_left deliver (emitted p) st.

Lemma unfinished_observed answers :
  Forall unfinished answers ->
  Forall (fun job => still_running job = true) (observed answers).
Proof.
  intros Hall. unfold observed.
  induction Hall as [| a answers Ha _ IH]; simpl; [constructor |].
  destruct a as [r |]; simpl; [| exact IH].
  constructor; [now apply non_terminal_running | exact IH].
Qed.

Lemma poll_next_running st job :
  still_running job = true ->
  poll_next st job
  = mkState (contentImage st) (styleImage st) (Some job) (isProcessing st)
            (showAuthModal st).
Proof.
  intros Hrun. unfold poll_next, still_running in *.
  apply orb_true_iff in Hrun.
  destruct Hrun as [E | E]; apply String.eqb_eq in E; now rewrite E.
Qed.

Lemma last_default {A} (l : list A) : forall x d d',
  List.last (x :: l) d = List.last (x :: l) d'.
Proof.
  induction l as [| y l IH]; intros x d d'; [reflexivity |].
  change (List.last (y :: l) d = List.last (y :: l) d'). apply IH.
Qed.

Lemma last_Some {A} (l : list A) (d : A) :
  exists x, List.last (map Some l) (Some d) = Some x.
Proof.
  induction l as [| y l IH]; [now exists d |].
  destruct l as [| z l]; [now exists y |]. exact IH.
Qed.

(** Running jobs only replace the tracked job. *)
Lemma deliver_running jobs : forall st,
  Forall (fun job => still_running job = true) jobs ->
  let st' := fold_left deliver (map Next jobs) st in
  contentImage st' = contentImage st
  /\ styleImage st' = styleImage st
  /\ isProcessing st' = isProcessing st
  /\ showAuthModal st' = showAuthModal st
  /\ currentJob st' = List.last (map Some jobs) (currentJob st).
Proof.
  induction jobs as [| job jobs IH]; intros st Hall; [simpl; auto 6 |].
  inversion Hall as [| ? ? Hjob Hrest]; subst.
  specialize (IH (poll_next st job) Hrest).
  rewrite (poll_next_running st job Hjob) in IH. simpl in IH.
  destruct IH as (A & B & C & D & E).
  cbn [map fold_left deliver]. rewrite (poll_next_running st job Hjob).
  repeat split; auto.
  rewrite E. destruct jobs as [| next jobs]; [reflexivity |].
  cbn [map].
  change (List.last (Some job :: Some next :: map Some jobs) (currentJob st))
    with (List.last (Some next :: map Some jobs) (currentJob st)).
  apply last_default.
Qed.

(** X16: a job that was submitted and answered 'pending' or
    'processing' (or late) up to a first 'completed' or 'failed' answer
    ends as the tracked job, carrying that answer, with the processing flag
    cleared; the two images are untouched, so the apply control is enabled
    again exactly when both images are still there. *)
Theorem finished_job_is_shown_and_frees_the_page
    (st : State) (job : StyleTransferJob)
    (answers : list (option StatusResponse)) (final : StatusResponse)
    (later : list Event) :
  Forall unfinished answers ->
  terminal final ->
  let tracking := transferStyle_next st job in
  let p := run (snd tracking)
               (timeline 0 (answers ++ [Some final]) ++ later) in
  let st' := delivered (fst tracking) p in
  poll_jobId p = jobId job
  /\ currentJob st' = Some (getJobStatus_map final)
  /\ isProcessing st' = false
  /\ contentImage st' = contentImage st
  /\ styleImage st' = styleImage st
  /\ canApplyStyle st'
     = bool_decide (is_Some (file_of (contentImage st)))
       && bool_decide (is_Some (file_of (styleImage st))).
Proof.
  intros Hall Hfinal tracking p st'.
  destruct (run_timeline_terminal (snd tracking) answers final later
              eq_refl eq_refl eq_refl Hall Hfinal) as [Hem _].
  fold p in Hem.
  destruct (run_config (timeline 0 (answers ++ [Some final]) ++ later)
              (snd tracking)) as [Hid _].
  fold p in Hid.
  unfold st', delivered. rewrite Hem, fold_left_app.
  destruct (deliver_running (observed answers) (fst tracking)
              (unfinished_observed answers Hall)) as (A & B & C & D & E).
  set (mid := fold_left deliver (map Next (observed answers)) (fst tracking)) in *.
  assert (T : String.eqb (job_status (getJobStatus_map final)) "completed"
              || String.eqb (job_status (getJobStatus_map final)) "failed"
              = true).
  { destruct Hfinal as [F | F]; simpl; rewrite F; reflexivity. }
  cbn [fold_left deliver]. unfold poll_next. rewrite T.
  cbn [currentJob isProcessing contentImage styleImage].
  split; [exact Hid |]. split; [reflexivity |]. split; [reflexivity |].
  split; [exact A |]. split; [exact B |].
  unfold canApplyStyle. cbn [contentImage styleImage isProcessing negb].
  rewrite A, B. simpl. now rewrite andb_true_r.
Qed.

(** X17: when a status request fails at the transport after any number
    of 'pending' or 'processing' (or late) answers, the loop stops after
    that one attempt and the page shows the job it tracked last as
    'failed' with the fixed message "Failed to get job status updates",
    the processing flag cleared. *)
Theorem failed_status_request_fails_the_job
    (st : State) (job : StyleTransferJob)
    (answers : list (option StatusResponse)) (error : HttpErrorResponse)
    (later : list Event) :
  Forall unfinished answers ->
  let tracking := transferStyle_next st job in
  let p := run (snd tracking)
               (timeline 0 answers
                ++ [Tick; Failure (length answers) error] ++ later) in
  let st' := delivered (fst tracking) p in
  length (sent p) = S (length answers)
  /\ active p = false
  /\ isProcessing st' = false
  /\ exists shown,
       currentJob st' = Some shown
       /\ job_status shown = "failed"
       /\ StyleTransferService.error shown
          = Some "Failed to get job status updates"
       /\ Some (jobId shown)
          = jobId <$> List.last (map Some (observed answers)) (Some job).
Proof.
  intros Hall tracking p st'.
  destruct (run_timeline_failure (snd tracking) answers error later
              eq_refl eq_refl eq_refl Hall) as (Hem & Hsent & Hact).
  fold p in Hem, Hsent, Hact.
  split; [exact Hsent |]. split; [exact Hact |].
  unfold st', delivered. rewrite Hem, fold_left_app.
  destruct (deliver_running (observed answers) (fst tracking)
              (unfinished_observed answers Hall)) as (A & B & C & D & E).
  set (mid := fold_left deliver (map Next (observed answers)) (fst tracking)) in *.
  cbn [fold_left deliver]. unfold poll_error.
  cbn [isProcessing currentJob]. split; [reflexivity |].
  rewrite E. change (currentJob (fst tracking)) with (Some job).
  destruct (last_Some (observed answers) job) as [tracked L].
  rewrite L. simpl.
  eexists. split; [reflexivity |]. simpl. auto.
Qed.

(** X18: with both images chosen, [onApplyStyle] without a stored token
    only opens the sign-in dialog: nothing is sent and the processing flag
    is not set.  Signing in does not submit anything by itself; the same
    call made after a login that stored a non-empty token posts the job
    and sets the processing flag. *)
Theorem submission_waits_for_sign_in
    (auth : AuthService.State) (response : AuthService.LoginResponse)
    (st : State) (params : StyleTransferParams) (content style : string) :
  file_of (contentImage st) = Some content ->
  file_of (styleImage st) = Some style ->
  AuthService.isAuthenticated auth = false ->
  AuthService.access_token response <> "" ->
  let asked := fst (onApplyStyle auth st params) in
  let signed := AuthService.login_tap auth response in
  snd (onApplyStyle auth st params) = []
  /\ showAuthModal asked = true
  /\ isProcessing asked = isProcessing st
  /\ currentJob asked = currentJob st
  /\ onLoginSuccess asked = asked
  /\ snd (onApplyStyle signed asked params)
     = [transferStyle content style params]
  /\ isProcessing (fst (onApplyStyle signed asked params)) = true.
Proof.
  intros Hc Hs Hno Htoken asked signed.
  assert (Hyes : AuthService.isAuthenticated signed = true).
  { unfold signed, AuthService.isAuthenticated.
    rewrite login_tap_token. simpl.
    apply String.eqb_neq in Htoken. now rewrite Htoken. }
  assert (E : onApplyStyle auth st params
              = (mkState (contentImage st) (styleImage st) (currentJob st)
                         (isProcessing st) true, [])).
  { unfold onApplyStyle. now rewrite Hc, Hs, Hno. }
  unfold asked. rewrite E. cbn [fst snd].
  repeat split.
  - unfold onApplyStyle. cbn [contentImage styleImage].
    now rewrite Hc, Hs, Hyes.
  - unfold onApplyStyle. cbn [contentImage styleImage].
    now rewrite Hc, Hs, Hyes.
Qed.

End Tracking.

(** ** The admin page *)

Section Admin.
Import AdminWorkflow.
Context `{Host} `{Environment} `{UriCodec}.

Definition get_requests (auth : AuthService.State) : HttpRequest :=
  mkRequest GET (apiUrl +:+ "/auth/requests") NoBody
            (AuthService.getAuthHeaders auth).

Definition get_users (auth : AuthService.State) : HttpRequest :=
  mkRequest GET (apiUrl +:+ "/auth/users") NoBody
            (AuthService.getAuthHeaders auth).

(** X19: [ngOnInit] loads nothing for a session that is not an admin's
    and loads the requests and the users, in that order, for an admin's.
    [confirmReject] without a request id, [createUser] with an empty email
    or password, and a delete whose confirmation was declined send nothing
    and change nothing. *)
Theorem admin_guards (auth : AuthService.State) (st : State) :
  (forall answer, AuthService.isAdmin auth = Ok answer ->
     ngOnInit auth st
     = if truthy answer
       then Ok (mkState (requests st) (users st) true true (isProcessing st)
                        (showRejectReasonModal st) (currentRejectRequestId st)
                        (rejectReason st) (newUserEmail st)
                        (newUserPassword st) (alerts st),
                [get_requests auth; get_users auth])
       else Ok (st, []))
  /\ (exists outcome, ngOnInit auth st = Ok outcome)
  /\ (AuthService.given (currentRejectRequestId st) = false ->
      confirmReject auth st = (st, []))
  /\ (newUserEmail st = "" \/ newUserPassword st = "" ->
      createUser auth st = (st, []))
  /\ (forall requestId, deleteRequest auth false st requestId = (st, []))
  /\ (forall email, deleteUser auth false st email = (st, [])).
Proof.
  split; [| split; [| split; [| split; [| split]]]].
  - intros answer E. unfold ngOnInit. rewrite E. simpl.
    now destruct (truthy answer).
  - destruct (isAdmin_returns auth) as [answer E].
    unfold ngOnInit. rewrite E. simpl.
    destruct (truthy answer); simpl; eauto.
  - intros E. unfold confirmReject. now rewrite E.
  - intros [E | E]; unfold createUser; rewrite E; simpl;
      [reflexivity | now rewrite orb_true_r].
  - reflexivity.
  - reflexivity.
Qed.

(** The requests a handler can send. *)
Definition handler_requests (auth : AuthService.State) (st : State)
    (target : string) : list HttpRequest :=
  snd (loadRequests auth st) ++ snd (loadUsers auth st)
  ++ snd (approveRequest auth st target)
  ++ snd (confirmReject auth st)
  ++ snd (deleteRequest auth true st target)
  ++ snd (createUser auth st)
  ++ snd (deleteUser auth true st target)
  ++ snd (approveRequest_next auth st) ++ snd (confirmReject_next auth st)
  ++ snd (deleteRequest_next auth st) ++ snd (createUser_next auth st)
  ++ snd (deleteUser_next auth st).

(** X20: every request of the admin page carries the headers of
    [getAuthHeaders] for the session at hand, so a Bearer header exactly
    when a token is stored.  The handlers do not look at the session
    otherwise: approving or deleting a request (when confirmed) sends its
    one request for any session, signed in or not. *)
Theorem admin_requests_carry_session_headers
    (auth : AuthService.State) (st : State) (target : string) :
  Forall (fun request => headers request = AuthService.getAuthHeaders auth)
         (handler_requests auth st target)
  /\ (AuthService.isAuthenticated auth = false ->
      Forall (fun request => headers request = [])
             (handler_requests auth st target))
  /\ snd (approveRequest auth st target)
     = [mkRequest POST
          (apiUrl +:+ "/auth/requests/" +:+ target +:+ "/approve")
          (JsonBody (JObj [])) (AuthService.getAuthHeaders auth)]
  /\ snd (deleteRequest auth true st target)
     = [mkRequest DELETE (apiUrl +:+ "/auth/requests/" +:+ target) NoBody
          (AuthService.getAuthHeaders auth)].
Proof.
  assert (F : Forall (fun request =>
                        headers request = AuthService.getAuthHeaders auth)
                     (handler_requests auth st target)).
  { unfold handler_requests, confirmReject, createUser.
    destruct (negb (AuthService.given (currentRejectRequestId st)));
      destruct (String.eqb (newUserEmail st) ""
                || String.eqb (newUserPassword st) "");
      simpl; repeat constructor. }
  split; [exact F |]. split; [| split; reflexivity].
  intros Hno.
  assert (E : AuthService.getAuthHeaders auth = []).
  { unfold AuthService.isAuthenticated in Hno.
    unfold AuthService.getAuthHeaders.
    destruct (AuthService.getToken auth) as [token |]; [| reflexivity].
    simpl in Hno. apply negb_false_iff in Hno. now rewrite Hno. }
  rewrite <- E. exact F.
Qed.

(** The five mutations and their two outcomes. *)
Inductive Mutation : Type :=
| approve | reject | removeRequest | addUser | removeUser.


Definition failed (st : State) (m : Mutation) (error : HttpErrorResponse)
  : State :=
  match m with
  | approve => approveRequest_error st error
  | reject => confirmReject_error st error
  | removeRequest => deleteRequest_error st error
  | addUser => createUser_error st error
  | removeUser => deleteUser_error st error
  end.



(** X22: after a successful reject the reason dialog is closed and its
    request id and reason are cleared, and after a successful
    [createUser] the two form fields are empty, so that a second click
    sends nothing. *)
Theorem admin_forms_reset_after_success (auth : AuthService.State) (st : State) :
  let rejected := fst (confirmReject_next auth st) in
  let created := fst (createUser_next auth st) in
  showRejectReasonModal rejected = false
  /\ currentRejectRequestId rejected = None
  /\ rejectReason rejected = ""
  /\ confirmReject auth rejected = (rejected, [])
  /\ newUserEmail created = "" /\ newUserPassword created = ""
  /\ createUser auth created = (created, []).
Proof. repeat split. Qed.

End Admin.

(** ** The dialog's request tab and failure messages *)

Section Dialog.
Import AuthService AuthModal.
Context `{Host} `{Environment}.

(** X23: [onSubmitRequest] sends the permission request exactly when
    name, email and reason are all filled in; otherwise it sends nothing,
    shows "Please fill in all fields" and does not set the loading flag.
    Either way the form's contents are kept and the success note is
    withdrawn. *)
Theorem onSubmitRequest_validation (st : RequestState) :
  let request := permissionRequest st in
  let after := fst (onSubmitRequest st) in
  let complete := negb (String.eqb (request_name request) "")
                  && negb (String.eqb (request_email request) "")
                  && negb (String.eqb (request_reason request) "") in
  snd (onSubmitRequest st)
  = (if complete then [submitPermissionRequest request] else [])
  /\ requestError after
     = (if complete then "" else "Please fill in all fields")
  /\ request_isLoading after
     = (if complete then true else request_isLoading st)
  /\ permissionRequest after = request
  /\ requestSuccess after = false.
Proof.
  cbv zeta. unfold onSubmitRequest. cbn [permissionRequest].
  destruct (String.eqb (request_name (permissionRequest st)) "");
    destruct (String.eqb (request_email (permissionRequest st)) "");
    destruct (String.eqb (request_reason (permissionRequest st)) "");
    simpl; repeat split.
Qed.


End Dialog.

(** ** Closed instances *)

Definition both_images : StyleTransferPage.State :=
  StyleTransferPage.mkState
    (Some (StyleTransferPage.mkImageFile (Some "content.png")))
    (Some (StyleTransferPage.mkImageFile (Some "style.png")))
    None true false.

Definition submitted_job : StyleTransferService.StyleTransferJob :=
  StyleTransferService.transferStyle_map pending_answer.

Definition connection_lost : HttpErrorResponse :=
  mkHttpError 0 "Http failure response for (unknown url): 0 Unknown Error"
              JUndefined None.

Lemma finished_job_example :
  let tracking := StyleTransferPage.transferStyle_next both_images submitted_job in
  let p := @StyleTransferService.run exampleEnvironment (snd tracking)
             (timeline 0 ([Some pending_answer; None] ++ [Some completed_answer])
              ++ [StyleTransferService.Tick]) in
  let st' := delivered (fst tracking) p in
  StyleTransferService.poll_jobId p = "job-1"
  /\ StyleTransferPage.currentJob st'
     = Some (StyleTransferService.getJobStatus_map completed_answer)
  /\ StyleTransferPage.isProcessing st' = false
  /\ StyleTransferPage.contentImage st'
     = StyleTransferPage.contentImage both_images
  /\ StyleTransferPage.styleImage st'
     = StyleTransferPage.styleImage both_images
  /\ StyleTransferPage.canApplyStyle st' = true.
Proof.
  apply (@finished_job_is_shown_and_frees_the_page exampleEnvironment
           both_images submitted_job [Some pending_answer; None]
           completed_answer [StyleTransferService.Tick]).
  - constructor; [left; reflexivity |]. constructor; [exact I | constructor].
  - left. reflexivity.
Defined.

Lemma failed_status_request_example :
  let tracking := StyleTransferPage.transferStyle_next both_images submitted_job in
  let p := @StyleTransferService.run exampleEnvironment (snd tracking)
             (timeline 0 [Some processing_answer]
              ++ [StyleTransferService.Tick;
                  StyleTransferService.Failure 1 connection_lost]
              ++ [StyleTransferService.Tick]) in
  let st' := delivered (fst tracking) p in
  length (StyleTransferService.sent p) = 2%nat
  /\ StyleTransferService.active p = false
  /\ StyleTransferPage.isProcessing st' = false
  /\ exists shown,
       StyleTransferPage.currentJob st' = Some shown
       /\ StyleTransferService.job_status shown = "failed"
       /\ StyleTransferService.error shown
          = Some "Failed to get job status updates"
       /\ Some (StyleTransferService.jobId shown) = Some "job-1".
Proof.
  apply (@failed_status_request_fails_the_job exampleEnvironment
           both_images submitted_job [Some processing_answer]
           connection_lost [StyleTransferService.Tick]).
  constructor; [right; reflexivity | constructor].
Defined.

Definition images_chosen : StyleTransferPage.State :=
  StyleTransferPage.mkState
    (Some (StyleTransferPage.mkImageFile (Some "content.png")))
    (Some (StyleTransferPage.mkImageFile (Some "style.png")))
    None false false.

Lemma submission_waits_for_sign_in_example :
  let asked := fst (@StyleTransferPage.onApplyStyle exampleHost
                      exampleEnvironment signed_out images_chosen
                      some_params) in
  let signed := @AuthService.login_tap exampleHost signed_out master_response in
  snd (@StyleTransferPage.onApplyStyle exampleHost exampleEnvironment
         signed_out images_chosen some_params) = []
  /\ StyleTransferPage.showAuthModal asked = true
  /\ StyleTransferPage.isProcessing asked = false
  /\ StyleTransferPage.currentJob asked = None
  /\ StyleTransferPage.onLoginSuccess asked = asked
  /\ snd (@StyleTransferPage.onApplyStyle exampleHost exampleEnvironment
            signed asked some_params)
     = [@StyleTransferService.transferStyle exampleHost exampleEnvironment
          "content.png" "style.png" some_params]
  /\ StyleTransferPage.isProcessing
       (fst (@StyleTransferPage.onApplyStyle exampleHost exampleEnvironment
               signed asked some_params)) = true.
Proof.
  apply (@submission_waits_for_sign_in exampleHost exampleEnvironment
           signed_out master_response images_chosen some_params
           "content.png" "style.png"); try reflexivity.
  discriminate.
Defined.

(** A run of the gallery page: load, filter, delete, clear. *)
Example gallery_run_example :
  let st := fold_left (@act examplePresets exampleEnvironment)
              [Loaded [Full item_a; Full item_b; Full item_c];
               FilterChosen "Style Focused";
               DeleteClicked signed_out true "c";
               Deleted "c";
               SortChosen "no such option"]
              GalleryPage.opened in
  GalleryPage.allGalleryItems st = [Full item_a; Full item_b]
  /\ GalleryPage.filteredItems st = [Full item_a]
  /\ GalleryPage.showAuthModal st = true
  /\ GalleryPage.filteredItems
       (@act examplePresets exampleEnvironment st FiltersCleared)
     = [Full item_b; Full item_a].
Proof. vm_compute. repeat split. Qed.

(** The same run up to the delete, where the collection holds full
    items only. *)
Lemma view_follows_collection_example :
  let st := fold_left (@act examplePresets exampleEnvironment)
              [Loaded [Full item_a; Full item_b; Full item_c];
               FilterChosen "Style Focused";
               Deleted "c"]
              GalleryPage.opened in
  let gs := [item_a; item_b] in
  exists listed,
    GalleryPage.filteredItems st = map Full listed
    /\ (forall item,
          In item listed
          <-> In item gs
              /\ (GalleryPage.activePresetFilter st = "all"
                  \/ @classified examplePresets item
                     = GalleryPage.activePresetFilter st))
    /\ Permutation listed
         (List.filter
            (@documented_filter examplePresets
               (GalleryPage.activePresetFilter st)) gs)
    /\ (length (GalleryPage.filteredItems st)
        <= length (GalleryPage.allGalleryItems st))%nat
    /\ ((forall item, In item gs ->
           PrimFloat.is_nan
             (documented_key (GalleryPage.sortOption st) item) = false) ->
        listed = @documented_view examplePresets (GalleryPage.sortOption st)
                   (GalleryPage.activePresetFilter st) gs).
Proof.
  apply (@view_follows_collection examplePresets exampleEnvironment
           [Loaded [Full item_a; Full item_b; Full item_c];
            FilterChosen "Style Focused";
            Deleted "c"]
           [item_a; item_b]).
  vm_compute. reflexivity.
Defined.
